(** * N-body simulation (src/main.cpp): a shallow embedding and its properties

    The program keeps an array of point masses, draws them on a character
    grid, moves them by their velocities, updates the velocities pairwise
    by a gravitation formula and recentres the cloud, once per update.

    Numbers.  A C++ [double] is read as a real number: every property below
    is a property of the program in exact real arithmetic, rounding is not
    modelled.  A double leaves the reals when it is divided by zero (the
    quotient is an infinity or a NaN); the embedding makes each run-time
    division a checked operation and stops following a run at the first
    such division.  Unchecked indexing and an out-of-range conversion to
    [unsigned int] are undefined behaviour in C++ and are faults as well.

    An [unsigned int] is a [Z] with its 32-bit wrap-around written out, an
    array or vector is a list, a [std::string] is a list of characters.

    Where a property depends on what binary64 numbers do and real numbers
    do not (overflow to an infinity), the module [Binary64] holds the same
    code on the primitive binary64 numbers, so that it can be run. *)

From Stdlib Require Import Reals Lra Lia ZArith List Ascii Bool.
From Stdlib Require Import Psatz.
From Stdlib Require PrimFloat FloatOps SpecFloat Uint63.
Import ListNotations.

Local Open Scope R_scope.

(** ** Faults and the error monad *)

Inductive fault : Type :=
| DivByZero      (* a double was divided by zero: the result is not finite *)
| BadConversion  (* a double outside the range of unsigned int was converted *)
| OutOfBounds.   (* an unchecked operator[] was used outside the container *)

Inductive result (A : Type) : Type :=
| Ok (a : A)
| Fault (f : fault).

Arguments Ok {A} a.
Arguments Fault {A} f.

Definition bind {A B : Type} (c : result A) (k : A -> result B) : result B :=
  match c with
  | Ok a => k a
  | Fault f => Fault f
  end.

Notation "x <- c ;; k" := (bind c (fun x => k))
  (at level 61, c at next level, right associativity).
Notation "' pat <- c ;; k" := (bind c (fun x => match x with pat => k end))
  (at level 61, pat pattern, c at next level, right associativity).

(** A [for] loop over the indices (or elements) [l], threading the state [a]
    through a body that may fault. *)
Fixpoint foldM {A I : Type} (f : A -> I -> result A) (l : list I) (a : A)
  : result A :=
  match l with
  | [] => Ok a
  | i :: l' => a' <- f a i ;; foldM f l' a'
  end.

(** ** Arithmetic of the program *)

(** [a / b] on doubles. *)
Definition fdiv (a b : R) : result R :=
  if Req_dec_T b 0 then Fault DivByZero else Ok (a / b).

(** [unsigned int]: 32 bits. *)
Definition UINT_SIZE : Z := 2 ^ 32.

(** [a - b] on [unsigned int]. *)
Definition uint_sub (a b : Z) : Z := ((a - b) mod UINT_SIZE)%Z.

(** [round] of <cmath>: the nearest integer, halfway cases away from zero. *)
Definition c_round (r : R) : Z :=
  if Rle_dec 0 r then Int_part (r + / 2) else (- Int_part (- r + / 2))%Z.

(** The implicit conversion of a rounded double to [unsigned int]. *)
Definition to_uint (v : Z) : result Z :=
  if ((0 <=? v) && (v <? UINT_SIZE))%Z then Ok v else Fault BadConversion.

(** [std::numeric_limits<double>::min()]: the least positive normal double. *)
Definition DBL_MIN : R := / 2 ^ 1022.

(** [std::numeric_limits<double>::max()]: the greatest finite double. *)
Definition DBL_MAX : R := (2 - / 2 ^ 52) * 2 ^ 1023.

(** ** Containers *)

(** [l[i]] read through an unchecked operator[]. *)
Definition at_index {A : Type} (l : list A) (i : nat) : result A :=
  match nth_error l i with
  | Some a => Ok a
  | None => Fault OutOfBounds
  end.

(** [l[i] = a]: the list with position [i] replaced; a list is left as it
    is when [i] is outside it (callers check the index first). *)
Fixpoint set_at {A : Type} (i : nat) (a : A) (l : list A) : list A :=
  match l, i with
  | [], _ => []
  | _ :: t, O => a :: t
  | h :: t, S i' => h :: set_at i' a t
  end.

(** ** The source's free functions *)

Definition newton_law_of_universal_gravitation
    (gravitational_constant mass1 mass2
     distance_between_the_two_mass_centers : R) : result R :=
  q <- fdiv (mass1 * mass2) distance_between_the_two_mass_centers ;;
  Ok (gravitational_constant * q).

Definition magnitude (x y z : R) : R := sqrt (x * x + y * y + z * z).

Definition distance (x1 y1 z1 x2 y2 z2 : R) : R :=
  let x := x1 - x2 in
  let y := y1 - y2 in
  let z := z1 - z2 in
  magnitude x y z.

Record Body : Type := mkBody {
  x : R; y : R; z : R;       (* position *)
  vx : R; vy : R; vz : R;    (* velocity *)
  mass : R
}.

(** [body.vx += ax; body.vy += ay; body.vz += az]. *)
Definition add_velocity (body : Body) (ax ay az : R) : Body :=
  mkBody (x body) (y body) (z body)
         (vx body + ax) (vy body + ay) (vz body + az) (mass body).

(** [body.x += dx; body.y += dy; body.z += dz]. *)
Definition add_position (body : Body) (dx dy dz : R) : Body :=
  mkBody (x body + dx) (y body + dy) (z body + dz)
         (vx body) (vy body) (vz body) (mass body).

(** [body.x -= dx; body.y -= dy; body.z -= dz]. *)
Definition sub_position (body : Body) (dx dy dz : R) : Body :=
  mkBody (x body - dx) (y body - dy) (z body - dz)
         (vx body) (vy body) (vz body) (mass body).

(** ** The velocity update of [main] (the block after the map is printed) *)

Definition gravitational_constant : R := 1.

(** The body of the inner loop, for the pair [(i1, i2)]: positions and the
    two masses of the force come from the copy [bodies_old], the velocities
    that are updated and the masses they are divided by from [bodies]. *)
Definition pair_update (G : R) (bodies_old bodies : list Body) (i1 i2 : nat)
  : result (list Body) :=
  o1 <- at_index bodies_old i1 ;;
  o2 <- at_index bodies_old i2 ;;
  let distance_between_the_two_mass_centers :=
    distance (x o1) (y o1) (z o1) (x o2) (y o2) (z o2) in
  force <- newton_law_of_universal_gravitation
             G (mass o1) (mass o2) distance_between_the_two_mass_centers ;;
  let x1 := x o2 - x o1 in
  let y1 := y o2 - y o1 in
  let z1 := z o2 - z o1 in
  let magnitude1 := magnitude x1 y1 z1 in
  x1_normalized <- fdiv x1 magnitude1 ;;
  y1_normalized <- fdiv y1 magnitude1 ;;
  z1_normalized <- fdiv z1 magnitude1 ;;
  let x1_force := x1_normalized * force in
  let y1_force := y1_normalized * force in
  let z1_force := z1_normalized * force in
  let x2_force := - x1_force in
  let y2_force := - y1_force in
  let z2_force := - z1_force in
  b1 <- at_index bodies i1 ;;
  ax1 <- fdiv x1_force (mass b1) ;;
  ay1 <- fdiv y1_force (mass b1) ;;
  az1 <- fdiv z1_force (mass b1) ;;
  let bodies := set_at i1 (add_velocity b1 ax1 ay1 az1) bodies in
  b2 <- at_index bodies i2 ;;
  ax2 <- fdiv x2_force (mass b2) ;;
  ay2 <- fdiv y2_force (mass b2) ;;
  az2 <- fdiv z2_force (mass b2) ;;
  Ok (set_at i2 (add_velocity b2 ax2 ay2 az2) bodies).

(** The inner loop: [for (i2 = i1 + 1; i2 < n; i2++)]. *)
Definition inner_loop (G : R) (bodies_old : list Body) (n : nat)
    (bodies : list Body) (i1 : nat) : result (list Body) :=
  foldM (fun bodies i2 => pair_update G bodies_old bodies i1 i2)
        (seq (i1 + 1) (n - (i1 + 1))) bodies.

(** The whole block: the copy is taken first, then
    [for (i1 = 0, n = bodies.size(); i1 < n - 1; i1++)].  For an empty
    array [n - 1] wraps around, and every inner loop is then empty: no pair
    is visited, as here. *)
Definition update_velocities (G : R) (bodies : list Body)
  : result (list Body) :=
  let bodies_old := bodies in
  let n := length bodies in
  foldM (inner_loop G bodies_old n) (seq 0 (n - 1)) bodies.

(** ** The position update and the recentring of [main] *)

(** [for (Body &body : bodies) { body.x += body.vx; ... }]. *)
Definition advance_positions (bodies : list Body) : list Body :=
  map (fun body => add_position body (vx body) (vy body) (vz body)) bodies.

(** The three running sums of the recentring block. *)
Definition position_sums (bodies : list Body) : R * R * R :=
  fold_left
    (fun '(xsum, ysum, zsum) body =>
       (xsum + x body, ysum + y body, zsum + z body))
    bodies (0, 0, 0).

(** The recentring block.  [number_of_bodies] is the size of the array (1000
    in [main]); it is the length of the list here. *)
Definition recenter (bodies : list Body) : result (list Body) :=
  let '(xsum, ysum, zsum) := position_sums bodies in
  let number_of_bodies := INR (length bodies) in
  cx <- fdiv xsum number_of_bodies ;;
  cy <- fdiv ysum number_of_bodies ;;
  cz <- fdiv zsum number_of_bodies ;;
  Ok (map (fun body => sub_position body cx cy cz) bodies).

(** ** [create_map_of_bodies] *)

Record Bounds : Type := mkBounds {
  highest_x : R; highest_y : R; highest_z : R;
  lowest_x : R; lowest_y : R; lowest_z : R
}.

(** [highest_* = numeric_limits<double>::min()],
    [lowest_* = numeric_limits<double>::max()]. *)
Definition initial_bounds : Bounds :=
  mkBounds DBL_MIN DBL_MIN DBL_MIN DBL_MAX DBL_MAX DBL_MAX.

(** [if (v > highest) highest = v;] and [if (v < lowest) lowest = v;]. *)
Definition raise (highest v : R) : R := if Rgt_dec v highest then v else highest.
Definition lower (lowest v : R) : R := if Rlt_dec v lowest then v else lowest.

(** One round of the first loop: six independent comparisons. *)
Definition bounds_step (b : Bounds) (body : Body) : Bounds :=
  mkBounds
    (raise (highest_x b) (x body))
    (raise (highest_y b) (y body))
    (raise (highest_z b) (z body))
    (lower (lowest_x b) (x body))
    (lower (lowest_y b) (y body))
    (lower (lowest_z b) (z body)).

Definition bounds_of (bodies : list Body) : Bounds :=
  fold_left bounds_step bodies initial_bounds.

Definition z_characters : list ascii :=
  [ "."%char; "'"%char; ":"%char; "-"%char; "_"%char; "^"%char; "+"%char;
    "="%char; "~"%char; "*"%char; "o"%char; "O"%char; "#"%char; "%"%char;
    "&"%char; "@"%char ].

Definition z_size : Z := Z.of_nat (length z_characters).

Definition space : ascii := " "%char.
Definition newline : ascii := ascii_of_nat 10.

(** [round((v - lowest) / (highest - lowest) * (cells - 1))] stored in an
    [unsigned int]; [cells - 1] is computed on [unsigned int]. *)
Definition grid_index (v lowest highest : R) (cells : Z) : result Z :=
  t <- fdiv (v - lowest) (highest - lowest) ;;
  to_uint (c_round (t * IZR (uint_sub cells 1))).

(** The three indices of a body: column [x], row [y], palette entry [z]. *)
Definition body_cell (height width : Z) (b : Bounds) (body : Body)
  : result (Z * Z * Z) :=
  x <- grid_index (x body) (lowest_x b) (highest_x b) width ;;
  y <- grid_index (y body) (lowest_y b) (highest_y b) height ;;
  z <- grid_index (z body) (lowest_z b) (highest_z b) z_size ;;
  Ok (x, y, z).

(** [lines[y][x] = c]. *)
Definition write_cell (lines : list (list ascii)) (y x : Z) (c : ascii)
  : result (list (list ascii)) :=
  line <- at_index lines (Z.to_nat y) ;;
  if (Z.to_nat x <? length line)%nat
  then Ok (set_at (Z.to_nat y) (set_at (Z.to_nat x) c line) lines)
  else Fault OutOfBounds.

(** One round of the second loop. *)
Definition plot (height width : Z) (b : Bounds) (lines : list (list ascii))
    (body : Body) : result (list (list ascii)) :=
  '(x, y, z) <- body_cell height width b body ;;
  c <- at_index z_characters (Z.to_nat z) ;;
  write_cell lines y x c.

(** [std::vector<std::string> lines{height, std::string(width, ' ')}]. *)
Definition blank_lines (height width : Z) : list (list ascii) :=
  repeat (repeat space (Z.to_nat width)) (Z.to_nat height).

(** [lines] when the second loop is over. *)
Definition render_lines (height width : Z) (bodies : list Body)
  : result (list (list ascii)) :=
  foldM (plot height width (bounds_of bodies)) bodies
        (blank_lines height width).

(** [output += line + '\n'] for every line. *)
Definition join_lines (lines : list (list ascii)) : list ascii :=
  fold_left (fun output line => output ++ line ++ [newline]) lines [].

Definition create_map_of_bodies (height width : Z) (bodies : list Body)
  : result (list ascii) :=
  lines <- render_lines height width bodies ;;
  Ok (join_lines lines).

(** ** The initialisation loop of [main] *)

Section Initialisation.

(** [RAND_MAX] of <cstdlib>: implementation defined, at least 32767. *)
Variable RAND_MAX : Z.

(** [rand_source k] is what the [k]-th call of [rand()] returns after
    [srand(time(NULL))]: any sequence of integers is a behaviour of the
    random source. *)
Variable rand_source : nat -> Z.

(** A computation that calls [rand()]: the state is the number of calls
    made so far. *)
Definition Rand (A : Type) : Type := nat -> A * nat.

Definition rand : Rand Z := fun calls => (rand_source calls, S calls).

(** [(double)(rand()) / RAND_MAX]; the divisor is a non-zero constant. *)
Definition rand01double : Rand R := fun s =>
  let (r, s) := rand s in (IZR r / IZR RAND_MAX, s).

Definition randn1to1double : Rand R := fun s =>
  let (v, s) := rand01double s in (v * 2 - 1, s).

Definition randndouble (number_of_bodies : nat) : Rand R := fun s =>
  let (v, s) := randn1to1double s in (v * INR number_of_bodies, s).

(** The seven draws of one round, in the order of the assignments. *)
Definition init_body (number_of_bodies : nat) : Rand Body := fun s =>
  let (bx, s) := randndouble number_of_bodies s in
  let (by_, s) := randndouble number_of_bodies s in
  let (bz, s) := randndouble number_of_bodies s in
  let (bvx, s) := rand01double s in
  let (bvy, s) := rand01double s in
  let (bvz, s) := rand01double s in
  let (bmass, s) := rand01double s in
  (mkBody bx by_ bz bvx bvy bvz bmass, s).

(** [for (Body &body : bodies)] over the first [count] bodies. *)
Fixpoint init_loop (number_of_bodies count : nat) : Rand (list Body) :=
  fun s =>
    match count with
    | O => ([], s)
    | S count' =>
        let (body, s) := init_body number_of_bodies s in
        let (rest, s) := init_loop number_of_bodies count' s in
        (body :: rest, s)
    end.

(** The bodies after the loop, from a random source that was not used
    before. *)
Definition initialize (number_of_bodies : nat) : list Body :=
  fst (init_loop number_of_bodies number_of_bodies O).

End Initialisation.

(** ** The state of the program and one update *)

(** What [main] and the C++ runtime hold between two updates: the array,
    the counter and the number of [rand()] calls made (the hidden state of
    the random source). *)
Record World : Type := mkWorld {
  bodies : list Body;
  updateCount : Z;
  rand_calls : nat
}.

(** A call [create_map_of_bodies(height, width, bodies)] made in the state
    [w]: the array is passed by reference to const and the function has only
    local variables, so the call returns a text and leaves the state. *)
Definition call_create_map_of_bodies (height width : Z) (w : World)
  : result (list ascii) * World :=
  (create_map_of_bodies height width (bodies w), w).

(** One round of the update loop once the waiting is over, for a terminal
    of [height] rows and [width] columns: the text of the map and the next
    state. *)
Definition update (height width : Z) (w : World)
  : result (list ascii * World) :=
  let (output, w) := call_create_map_of_bodies height width w in
  text <- output ;;
  let moved := advance_positions (bodies w) in
  accelerated <- update_velocities gravitational_constant moved ;;
  centred <- recenter accelerated ;;
  Ok (text,
      mkWorld centred ((updateCount w + 1) mod UINT_SIZE)%Z (rand_calls w)).

(** ** Functions run in the process *)

(** What any function of the program can reach without being handed it: the
    state of the random source behind [rand()] (the number of calls made)
    and the text written to [std::cout]. *)
Record Process : Type := mkProcess {
  rand_state : nat;
  console : list ascii
}.

(** A function run in the process: from the state of the process, a fault
    or a value and the new state. *)
Definition Prog (A : Type) : Type := Process -> result (A * Process).

Definition retP {A : Type} (a : A) : Prog A := fun p => Ok (a, p).

Definition bindP {A B : Type} (c : Prog A) (k : A -> Prog B) : Prog B :=
  fun p =>
    match c p with
    | Ok (a, p') => k a p'
    | Fault f => Fault f
    end.

Notation "x <~ c ;; k" := (bindP c (fun x => k))
  (at level 61, c at next level, right associativity).

(** A step on local values only. *)
Definition liftP {A : Type} (r : result A) : Prog A :=
  fun p =>
    match r with
    | Ok a => Ok (a, p)
    | Fault f => Fault f
    end.

(** A [for] loop in the process. *)
Fixpoint forP {A I : Type} (f : A -> I -> Prog A) (l : list I) (a : A)
  : Prog A :=
  match l with
  | [] => retP a
  | i :: l' => a' <~ f a i ;; forP f l' a'
  end.

(** [rand()], for the random source [rand_source]. *)
Definition rand_call (rand_source : nat -> Z) : Prog Z :=
  fun p => Ok (rand_source (rand_state p),
               mkProcess (S (rand_state p)) (console p)).

(** [std::cout << text]. *)
Definition print (text : list ascii) : Prog unit :=
  fun p => Ok (tt, mkProcess (rand_state p) (console p ++ text)).

(** [create_map_of_bodies] as the process runs it, statement by statement:
    the loop of the bounds, the loop of the bodies and the loop of the
    lines.  Every step is on the arguments and on local variables. *)
Definition create_map_of_bodies_in_process (height width : Z)
    (bodies : list Body) : Prog (list ascii) :=
  b <~ forP (fun b body => retP (bounds_step b body)) bodies initial_bounds ;;
  let z_size := Z.of_nat (length z_characters) in
  lines <~ forP (fun lines body =>
                   x <~ liftP (grid_index (x body) (lowest_x b)
                                 (highest_x b) width) ;;
                   y <~ liftP (grid_index (y body) (lowest_y b)
                                 (highest_y b) height) ;;
                   z <~ liftP (grid_index (z body) (lowest_z b)
                                 (highest_z b) z_size) ;;
                   c <~ liftP (at_index z_characters (Z.to_nat z)) ;;
                   liftP (write_cell lines y x c))
                bodies (blank_lines height width) ;;
  forP (fun output line => retP (output ++ line ++ [newline])) lines [].

(** [std::cout << create_map_of_bodies(height, width, bodies)] of [main]. *)
Definition print_map (height width : Z) (bodies : list Body) : Prog unit :=
  text <~ create_map_of_bodies_in_process height width bodies ;;
  print text.

(** ** The renderer's index computation on binary64 numbers *)

Module Binary64.

Import PrimFloat FloatOps SpecFloat.

Record Body : Type := mkBody {
  x : float; y : float; z : float;
  vx : float; vy : float; vz : float;
  mass : float
}.

(** [std::numeric_limits<double>::min()] and [max()]. *)
Definition DBL_MIN : float := 0x1p-1022%float.
Definition DBL_MAX : float := 0x1.fffffffffffffp1023%float.

Record Bounds : Type := mkBounds {
  highest_x : float; highest_y : float; highest_z : float;
  lowest_x : float; lowest_y : float; lowest_z : float
}.

Definition initial_bounds : Bounds :=
  mkBounds DBL_MIN DBL_MIN DBL_MIN DBL_MAX DBL_MAX DBL_MAX.

(** [if (v > highest) highest = v;] and [if (v < lowest) lowest = v;]. *)
Definition raise (highest v : float) : float :=
  if PrimFloat.ltb highest v then v else highest.
Definition lower (lowest v : float) : float :=
  if PrimFloat.ltb v lowest then v else lowest.

Definition bounds_step (b : Bounds) (body : Body) : Bounds :=
  mkBounds
    (raise (highest_x b) (x body))
    (raise (highest_y b) (y body))
    (raise (highest_z b) (z body))
    (lower (lowest_x b) (x body))
    (lower (lowest_y b) (y body))
    (lower (lowest_z b) (z body)).

Definition bounds_of (bodies : list Body) : Bounds :=
  fold_left bounds_step bodies initial_bounds.

(** [round] of <cmath> followed by the conversion to [unsigned int]: the
    nearest integer, halfway cases away from zero; the conversion is
    undefined for a NaN, an infinity and an integer outside the type. *)
Definition round_to_uint (f : float) : result Z :=
  match Prim2SF f with
  | S754_zero _ => Ok 0%Z
  | S754_finite s m e =>
      let n := if (0 <=? e)%Z then (Z.pos m * 2 ^ e)%Z
               else ((2 * Z.pos m + 2 ^ (- e)) / (2 * 2 ^ (- e)))%Z in
      let v := if s then (- n)%Z else n in
      if ((0 <=? v) && (v <? UINT_SIZE))%Z then Ok v else Fault BadConversion
  | S754_infinity _ => Fault BadConversion
  | S754_nan => Fault BadConversion
  end.

(** The argument of [round]: [(v - lowest) / (highest - lowest) * (cells - 1)],
    with [cells - 1] computed on [unsigned int] and converted. *)
Definition index_argument (v lowest highest : float) (cells : Z) : float :=
  PrimFloat.mul
    (PrimFloat.div (PrimFloat.sub v lowest) (PrimFloat.sub highest lowest))
    (PrimFloat.of_uint63 (Uint63.of_Z (uint_sub cells 1))).

Definition grid_index (v lowest highest : float) (cells : Z) : result Z :=
  round_to_uint (index_argument v lowest highest cells).

Definition body_cell (height width : Z) (b : Bounds) (body : Body)
  : result (Z * Z * Z) :=
  x <- grid_index (x body) (lowest_x b) (highest_x b) width ;;
  y <- grid_index (y body) (lowest_y b) (highest_y b) height ;;
  z <- grid_index (z body) (lowest_z b) (highest_z b) z_size ;;
  Ok (x, y, z).

(** A double that is neither a NaN nor an infinity. *)
Definition finite (f : float) : bool :=
  negb (PrimFloat.is_nan f) && negb (PrimFloat.is_infinity f).

Definition finite_body (body : Body) : bool :=
  finite (x body) && finite (y body) && finite (z body).

(** Two bodies, the halves of the greatest power of two apart on the x
    axis. *)
Definition far_left : Body :=
  mkBody (-0x1p1023)%float (-1)%float (-1)%float 0%float 0%float 0%float
         1%float.
Definition far_right : Body :=
  mkBody 0x1p1023%float 1%float 1%float 0%float 0%float 0%float 1%float.

End Binary64.

(** * Properties *)

(** ** What the properties speak of *)

Definition same_position (a b : Body) : Prop :=
  x a = x b /\ y a = y b /\ z a = z b.

(** The distance the force step computes for a pair. *)
Definition body_distance (a b : Body) : R :=
  distance (x a) (y a) (z a) (x b) (y b) (z b).

(** The sum of [f] over a collection. *)
Definition sum_over (f : Body -> R) (l : list Body) : R :=
  fold_right (fun b acc => f b + acc) 0 l.

(** Total momentum, one component each. *)
Definition momentum_x (l : list Body) : R := sum_over (fun b => mass b * vx b) l.
Definition momentum_y (l : list Body) : R := sum_over (fun b => mass b * vy b) l.
Definition momentum_z (l : list Body) : R := sum_over (fun b => mass b * vz b) l.

(** Every mass of the collection is strictly positive. *)
Definition positive_masses (l : list Body) : Prop :=
  forall b, In b l -> 0 < mass b.

(** No two bodies of the collection are at the same position. *)
Definition distinct_positions (l : list Body) : Prop :=
  forall i j bi bj,
    i <> j -> nth_error l i = Some bi -> nth_error l j = Some bj ->
    ~ same_position bi bj.

(** What every round of the two loops keeps: the masses of the live array
    are those of the copy, and so is the total momentum. *)
Definition pass_invariant (bodies_old live : list Body) : Prop :=
  map mass live = map mass bodies_old /\
  momentum_x live = momentum_x bodies_old /\
  momentum_y live = momentum_y bodies_old /\
  momentum_z live = momentum_z bodies_old.

(** A run that ends well in a state satisfying [P], or stops on a division
    by zero. *)
Definition ok_or_div {A : Type} (P : A -> Prop) (r : result A) : Prop :=
  match r with
  | Ok a => P a
  | Fault f => f = DivByZero
  end.

(** The arithmetic mean of a coordinate over a collection. *)
Definition mean_of (f : Body -> R) (l : list Body) : R :=
  sum_over f l / INR (length l).

(** The grid keeps its shape: [height] lines of [width] characters. *)
Definition grid_shape (height width : Z) (lines : list (list ascii)) : Prop :=
  length lines = Z.to_nat height /\
  Forall (fun line => length line = Z.to_nat width) lines.

(** The character at line [r], column [c] of the grid, if there is one. *)
Definition grid_cell (lines : list (list ascii)) (r c : nat) : option ascii :=
  match nth_error lines r with
  | Some line => nth_error line c
  | None => None
  end.

(** The character of the returned text at row [row], column [col]: every
    line of the text has [width] characters and a newline. *)
Definition text_cell (width : Z) (output : list ascii) (row col : Z)
  : option ascii :=
  nth_error output (Z.to_nat row * (Z.to_nat width + 1) + Z.to_nat col).

(** Each position component lies in [[-n, n]]. *)
Definition position_within (n : R) (body : Body) : Prop :=
  - n <= x body <= n /\ - n <= y body <= n /\ - n <= z body <= n.

(** Each velocity component lies in [[0, 1]]. *)
Definition velocity_within_unit (body : Body) : Prop :=
  0 <= vx body <= 1 /\ 0 <= vy body <= 1 /\ 0 <= vz body <= 1.

(** The pairs [(i1, i2)] in the order of the two loops over [n] bodies. *)
Definition visited_pairs (n : nat) : list (nat * nat) :=
  flat_map (fun i1 => map (pair i1) (seq (i1 + 1) (n - (i1 + 1))))
           (seq 0 (n - 1)).

(** What the velocity update must leave alone: where a body is and what it
    weighs. *)
Definition place_and_mass (b : Body) : R * R * R * R :=
  (x b, y b, z b, mass b).

(** The three axes, with the coordinate and the velocity component of a
    body along each. *)
Inductive axis : Type := AxisX | AxisY | AxisZ.

Definition coordinate (a : axis) (b : Body) : R :=
  match a with AxisX => x b | AxisY => y b | AxisZ => z b end.

Definition velocity (a : axis) (b : Body) : R :=
  match a with AxisX => vx b | AxisY => vy b | AxisZ => vz b end.

(** What the force step adds to the velocity of [p] on account of [q], along
    one axis: the normalised direction from [p] to [q], times the force,
    divided by the mass of [p]. *)
Definition acceleration (G : R) (a : axis) (p q : Body) : R :=
  (coordinate a q - coordinate a p) / body_distance p q
  * (G * mass p * mass q / body_distance p q) / mass p.

(** The sum of [f] over a list. *)
Definition sum_of {A : Type} (f : A -> R) (l : list A) : R :=
  fold_right (fun a acc => f a + acc) 0 l.

(** The sum of the accelerations of the body [p], which stands at index [k]
    of [l], on account of every other body of [l]. *)
Definition net_acceleration (G : R) (a : axis) (l : list Body) (k : nat)
    (p : Body) : R :=
  sum_of (fun j => if Nat.eqb j k then 0
                   else match nth_error l j with
                        | Some q => acceleration G a p q
                        | None => 0
                        end)
         (seq 0 (length l)).

(** What the round for the pair [pr] adds to the velocity of the body [p]
    at index [k]: the acceleration on account of its partner when [k] is
    one of the two indices, nothing otherwise. *)
Definition pair_share (G : R) (a : axis) (l : list Body) (k : nat) (p : Body)
    (pr : nat * nat) : R :=
  if Nat.eqb k (fst pr) then
    match nth_error l (snd pr) with
    | Some q => acceleration G a p q
    | None => 0
    end
  else if Nat.eqb k (snd pr) then
    match nth_error l (fst pr) with
    | Some q => acceleration G a p q
    | None => 0
    end
  else 0.

(** The state of the live array once the rounds for the pairs [done] are
    over: places and masses as at the start, and each velocity raised by the
    shares of those rounds. *)
Definition tracks_velocity (G : R) (bodies0 : list Body)
    (done : list (nat * nat)) (live : list Body) : Prop :=
  map place_and_mass live = map place_and_mass bodies0 /\
  forall k p, nth_error bodies0 k = Some p ->
    exists p', nth_error live k = Some p' /\
      forall a, velocity a p'
                = velocity a p + sum_of (pair_share G a bodies0 k p) done.

(** A function applied to the value a run returns. *)
Definition map_result {A B : Type} (h : A -> B) (r : result A) : result B :=
  match r with
  | Ok a => Ok (h a)
  | Fault f => Fault f
  end.

(** The whole collection moved by one vector. *)
Definition translate (dx dy dz : R) (l : list Body) : list Body :=
  map (fun body => add_position body dx dy dz) l.

(** The characters the text of the map is made of. *)
Definition map_character (c : ascii) : Prop :=
  c = newline \/ c = space \/ In c z_characters.

(** The characters a line of the grid is made of. *)
Definition grid_character (c : ascii) : Prop :=
  c = space \/ In c z_characters.

(** Where a body is. *)
Definition place (b : Body) : R * R * R := (x b, y b, z b).

(** The body the initialisation builds from the seven draws number [s] to
    [s + 6] of the random source, for [n] bodies. *)
Definition body_from_draws (RAND_MAX : Z) (rand_source : nat -> Z) (n s : nat)
  : Body :=
  let unit_draw j := IZR (rand_source j) / IZR RAND_MAX in
  let spread_draw j := (unit_draw j * 2 - 1) * INR n in
  mkBody (spread_draw s) (spread_draw (s + 1)%nat) (spread_draw (s + 2)%nat)
         (unit_draw (s + 3)%nat) (unit_draw (s + 4)%nat)
         (unit_draw (s + 5)%nat) (unit_draw (s + 6)%nat).

(** A function run in the process that neither reads nor changes the state
    of the process: in every state it returns [r] and leaves the state. *)
Definition stateless {A : Type} (c : Prog A) (r : result A) : Prop :=
  forall p, c p = liftP r p.

(** ** Concrete inputs *)

(** A body at rest on the x axis, of mass 1. *)
Definition resting_unit_body (a : R) : Body := mkBody a 0 0 0 0 0 1.

(** The two bodies of the two-body case, the first at the origin. *)
Definition two_bodies : list Body :=
  [resting_unit_body 0; resting_unit_body (0 + 10)].

(** Two bodies at one place. *)
Definition stacked_bodies : list Body :=
  [resting_unit_body 0; resting_unit_body 0].

(** A body whose three coordinates are all -1. *)
Definition negative_body : Body := mkBody (- 1) (- 1) (- 1) 0 0 0 1.

(** Three bodies: the first and the third share x and y, the second spans
    the box. *)
Definition corner_bodies : list Body :=
  [ mkBody 0 0 0 0 0 0 1; mkBody 1 1 1 0 0 0 1; mkBody 0 0 1 0 0 0 1 ].

(** Two bodies with the same abscissa. *)
Definition flat_bodies : list Body :=
  [ mkBody 1 0 0 0 0 0 1; mkBody 1 1 1 0 0 0 1 ].

(** The corner bodies with other velocities and masses. *)
Definition moving_corner_bodies : list Body :=
  [ mkBody 0 0 0 1 2 3 4; mkBody 1 1 1 5 6 7 8; mkBody 0 0 1 0 0 0 0 ].

(** The random source that returns 0 at every call. *)
Definition zero_source : nat -> Z := fun _ => 0%Z.

(** * Lemmas and theorems *)

(** ** The error monad and the containers *)

Lemma fdiv_ok (a b : R) : b <> 0 -> fdiv a b = Ok (a / b).
Proof.
  intros Hb. unfold fdiv. destruct (Req_dec_T b 0) as [E | _]; [contradiction | reflexivity].
Qed.

Lemma fdiv_zero (a : R) : fdiv a 0 = Fault DivByZero.
Proof.
  unfold fdiv. destruct (Req_dec_T 0 0) as [_ | N]; [reflexivity | now elim N].
Qed.

Lemma fdiv_cases (a b : R) :
  (b <> 0 /\ fdiv a b = Ok (a / b)) \/ (b = 0 /\ fdiv a b = Fault DivByZero).
Proof.
  unfold fdiv. destruct (Req_dec_T b 0) as [E | N]; [right | left]; auto.
Qed.

Lemma at_index_some {A : Type} (l : list A) (i : nat) (a : A) :
  nth_error l i = Some a -> at_index l i = Ok a.
Proof. intros H. unfold at_index. now rewrite H. Qed.

Lemma at_index_lt {A : Type} (l : list A) (i : nat) :
  (i < length l)%nat -> exists a, nth_error l i = Some a /\ at_index l i = Ok a.
Proof.
  intros H. destruct (nth_error l i) as [a |] eqn:E.
  - exists a. split; [reflexivity | now apply at_index_some].
  - apply nth_error_None in E. lia.
Qed.

Lemma length_set_at {A : Type} (i : nat) (a : A) (l : list A) :
  length (set_at i a l) = length l.
Proof.
  revert i. induction l as [| h t IH]; intros [| i]; simpl; auto.
Qed.

Lemma nth_error_set_at_same {A : Type} (i : nat) (a : A) (l : list A) :
  (i < length l)%nat -> nth_error (set_at i a l) i = Some a.
Proof.
  revert i. induction l as [| h t IH]; intros [| i] H; simpl in *; try lia; auto.
  apply IH. lia.
Qed.

Lemma nth_error_set_at_other {A : Type} (i j : nat) (a : A) (l : list A) :
  i <> j -> nth_error (set_at i a l) j = nth_error l j.
Proof.
  revert i j. induction l as [| h t IH]; intros [| i] [| j] H; simpl; auto.
  contradiction.
Qed.

Lemma map_set_at {A B : Type} (f : A -> B) (i : nat) (a b : A) (l : list A) :
  nth_error l i = Some b -> f a = f b -> map f (set_at i a l) = map f l.
Proof.
  revert i. induction l as [| h t IH]; intros [| i] Hn Hf; simpl in *; try discriminate.
  - injection Hn as ->. now rewrite Hf.
  - f_equal. now apply IH.
Qed.

Lemma sum_over_set_at (f : Body -> R) (i : nat) (a b : Body) (l : list Body) :
  nth_error l i = Some b ->
  sum_over f (set_at i a l) = sum_over f l - f b + f a.
Proof.
  revert i. induction l as [| h t IH]; intros [| i] Hn; simpl in *; try discriminate.
  - injection Hn as ->. lra.
  - rewrite (IH _ Hn). lra.
Qed.

(** A loop whose body, from any state that satisfies [P], returns a state
    that satisfies [P], returns such a state. *)
Lemma foldM_invariant {A I : Type} (P : A -> Prop) (f : A -> I -> result A)
    (l : list I) :
  (forall a i, In i l -> P a -> exists a', f a i = Ok a' /\ P a') ->
  forall a, P a -> exists a', foldM f l a = Ok a' /\ P a'.
Proof.
  induction l as [| i l IH]; intros Hstep a Ha; simpl.
  - exists a. auto.
  - destruct (Hstep a i (or_introl eq_refl) Ha) as [a1 [E1 P1]].
    rewrite E1. simpl. apply IH; [| exact P1].
    intros a0 j Hj. apply Hstep. now right.
Qed.

(** ** Distances *)

Lemma sum_squares_nonneg (a b c : R) : 0 <= a * a + b * b + c * c.
Proof. nra. Qed.

Lemma magnitude_zero_iff (a b c : R) :
  magnitude a b c = 0 <-> a = 0 /\ b = 0 /\ c = 0.
Proof.
  unfold magnitude. split.
  - intros H. apply sqrt_eq_0 in H; [| nra].
    repeat split; nra.
  - intros [-> [-> ->]]. replace (0 * 0 + 0 * 0 + 0 * 0) with 0 by ring.
    apply sqrt_0.
Qed.

Lemma magnitude_opp (a b c : R) : magnitude (- a) (- b) (- c) = magnitude a b c.
Proof. unfold magnitude. f_equal. ring. Qed.

Lemma magnitude_nonneg (a b c : R) : 0 <= magnitude a b c.
Proof. unfold magnitude. apply sqrt_pos. Qed.

(** The direction vector of the force step has the length the distance
    function returns. *)
Lemma direction_magnitude (a b : Body) :
  magnitude (x b - x a) (y b - y a) (z b - z a) = body_distance a b.
Proof.
  unfold body_distance, distance. rewrite <- magnitude_opp. f_equal; ring.
Qed.

Lemma body_distance_zero_iff (a b : Body) :
  body_distance a b = 0 <-> same_position a b.
Proof.
  unfold body_distance, distance, same_position. rewrite magnitude_zero_iff.
  split; intros [H1 [H2 H3]]; repeat split; lra.
Qed.

(** ** The force step on one pair *)

(** What one round of the inner loop does when nothing is divided by zero:
    the result is written out in full. *)
Lemma pair_update_result (G : R) (bodies_old live : list Body) (i1 i2 : nat)
    (o1 o2 b1 b2 : Body) :
  i1 <> i2 ->
  nth_error bodies_old i1 = Some o1 -> nth_error bodies_old i2 = Some o2 ->
  nth_error live i1 = Some b1 -> nth_error live i2 = Some b2 ->
  body_distance o1 o2 <> 0 -> mass b1 <> 0 -> mass b2 <> 0 ->
  let d := body_distance o1 o2 in
  let F := G * mass o1 * mass o2 / d in
  let ux := (x o2 - x o1) / d in
  let uy := (y o2 - y o1) / d in
  let uz := (z o2 - z o1) / d in
  pair_update G bodies_old live i1 i2 =
  Ok (set_at i2
        (add_velocity b2 (- (ux * F) / mass b2) (- (uy * F) / mass b2)
                         (- (uz * F) / mass b2))
        (set_at i1
           (add_velocity b1 (ux * F / mass b1) (uy * F / mass b1)
                            (uz * F / mass b1))
           live)).
Proof.
  intros Hne Ho1 Ho2 Hb1 Hb2 Hd Hm1 Hm2 d F ux uy uz.
  unfold pair_update.
  rewrite (at_index_some _ _ _ Ho1), (at_index_some _ _ _ Ho2). cbn [bind].
  unfold newton_law_of_universal_gravitation.
  fold (body_distance o1 o2). fold d.
  rewrite (fdiv_ok _ d Hd). cbn [bind].
  rewrite direction_magnitude. fold d.
  rewrite !(fdiv_ok _ d Hd). cbn [bind].
  rewrite (at_index_some _ _ _ Hb1). cbn [bind].
  rewrite !(fdiv_ok _ (mass b1) Hm1). cbn [bind].
  unfold at_index at 1.
  rewrite (nth_error_set_at_other i1 i2) by exact Hne.
  rewrite Hb2. cbn [bind].
  rewrite !(fdiv_ok _ (mass b2) Hm2). cbn [bind].
  assert (EF : G * (mass o1 * mass o2 / d) = F) by (unfold F; field; exact Hd).
  rewrite EF. reflexivity.
Qed.

(** C5.  For a pair of bodies at reference distance [d > 0] the force step
    computes the magnitude [G * mass_i * mass_j / d] (the distance enters
    linearly, not squared); and, the masses being non-zero as the data model
    has them, it adds to the velocity of body i the unit vector from i
    toward j times that magnitude divided by [mass_i], and to the velocity
    of body j the negated vector divided by [mass_j]; the two bodies are
    written out field by field (position and mass as they were, each
    velocity component with its increment), and every other body is as it
    was. *)
Theorem pair_force_formula (G : R) (bodies_old live : list Body)
    (i1 i2 : nat) (o1 o2 b1 b2 : Body) :
  i1 <> i2 ->
  nth_error bodies_old i1 = Some o1 -> nth_error bodies_old i2 = Some o2 ->
  nth_error live i1 = Some b1 -> nth_error live i2 = Some b2 ->
  0 < body_distance o1 o2 ->
  let d := body_distance o1 o2 in
  let F := G * mass o1 * mass o2 / d in
  let ux := (x o2 - x o1) / d in
  let uy := (y o2 - y o1) / d in
  let uz := (z o2 - z o1) / d in
  newton_law_of_universal_gravitation G (mass o1) (mass o2) d = Ok F /\
  (ux * ux + uy * uy + uz * uz = 1) /\
  (mass b1 <> 0 -> mass b2 <> 0 ->
   exists live',
     pair_update G bodies_old live i1 i2 = Ok live' /\
     nth_error live' i1 =
       Some (mkBody (x b1) (y b1) (z b1)
                    (vx b1 + ux * F / mass b1)
                    (vy b1 + uy * F / mass b1)
                    (vz b1 + uz * F / mass b1)
                    (mass b1)) /\
     nth_error live' i2 =
       Some (mkBody (x b2) (y b2) (z b2)
                    (vx b2 + - (ux * F) / mass b2)
                    (vy b2 + - (uy * F) / mass b2)
                    (vz b2 + - (uz * F) / mass b2)
                    (mass b2)) /\
     forall k, k <> i1 -> k <> i2 -> nth_error live' k = nth_error live k).
Proof.
  intros Hne Ho1 Ho2 Hb1 Hb2 Hpos d F ux uy uz.
  assert (Hd : d <> 0) by (unfold d; lra).
  split; [| split].
  - unfold newton_law_of_universal_gravitation.
    rewrite (fdiv_ok _ d Hd). cbn [bind]. f_equal. unfold F. field. exact Hd.
  - assert (Hsq : d * d = (x o2 - x o1) * (x o2 - x o1)
                          + (y o2 - y o1) * (y o2 - y o1)
                          + (z o2 - z o1) * (z o2 - z o1)).
    { unfold d. rewrite <- direction_magnitude. unfold magnitude.
      apply sqrt_sqrt. apply sum_squares_nonneg. }
    unfold ux, uy, uz.
    replace ((x o2 - x o1) / d * ((x o2 - x o1) / d)
             + (y o2 - y o1) / d * ((y o2 - y o1) / d)
             + (z o2 - z o1) / d * ((z o2 - z o1) / d))
      with (((x o2 - x o1) * (x o2 - x o1) + (y o2 - y o1) * (y o2 - y o1)
             + (z o2 - z o1) * (z o2 - z o1)) / (d * d)) by (field; exact Hd).
    rewrite <- Hsq. field. exact Hd.
  - intros Hm1 Hm2.
    assert (L1 : (i1 < length live)%nat) by (apply nth_error_Some; congruence).
    assert (L2 : (i2 < length live)%nat) by (apply nth_error_Some; congruence).
    eexists. split.
    + apply (pair_update_result G bodies_old live i1 i2 o1 o2 b1 b2); auto.
    + fold d F ux uy uz. split; [| split].
      * rewrite nth_error_set_at_other by (intro E; apply Hne; symmetry; exact E).
        rewrite nth_error_set_at_same by exact L1. reflexivity.
      * rewrite nth_error_set_at_same by (rewrite length_set_at; exact L2).
        reflexivity.
      * intros k K1 K2.
        rewrite nth_error_set_at_other by (intro E; apply K2; symmetry; exact E).
        apply nth_error_set_at_other. intro E; apply K1; symmetry; exact E.
Qed.

(** ** Momentum through the velocity update *)

Lemma same_mass_at (bodies_old live : list Body) (i : nat) (o : Body) :
  map mass live = map mass bodies_old ->
  nth_error bodies_old i = Some o ->
  exists b, nth_error live i = Some b /\ mass b = mass o.
Proof.
  intros Hm Ho.
  pose proof (map_nth_error mass _ _ Ho) as Hmo. rewrite <- Hm in Hmo.
  destruct (nth_error live i) as [b |] eqn:Eb.
  - exists b. split; [reflexivity |].
    rewrite (map_nth_error mass _ _ Eb) in Hmo. congruence.
  - apply nth_error_None in Eb.
    assert (i < length (map mass live))%nat
      by (apply nth_error_Some; congruence).
    rewrite length_map in *. lia.
Qed.

Lemma pair_update_keeps_invariant (G : R) (bodies_old live : list Body)
    (i1 i2 : nat) :
  positive_masses bodies_old -> distinct_positions bodies_old ->
  (i1 < i2 < length bodies_old)%nat ->
  pass_invariant bodies_old live ->
  exists live',
    pair_update G bodies_old live i1 i2 = Ok live' /\
    pass_invariant bodies_old live'.
Proof.
  intros Hmass Hpos [Hlt Hn] [Hm [Px [Py Pz]]].
  assert (Hne : i1 <> i2) by lia.
  destruct (at_index_lt bodies_old i1) as [o1 [Ho1 _]]; [lia |].
  destruct (at_index_lt bodies_old i2) as [o2 [Ho2 _]]; [lia |].
  destruct (same_mass_at _ _ _ _ Hm Ho1) as [b1 [Hb1 M1]].
  destruct (same_mass_at _ _ _ _ Hm Ho2) as [b2 [Hb2 M2]].
  pose proof (Hmass o1 (nth_error_In _ _ Ho1)) as Q1.
  pose proof (Hmass o2 (nth_error_In _ _ Ho2)) as Q2.
  assert (Hd : body_distance o1 o2 <> 0).
  { intros E. apply body_distance_zero_iff in E.
    exact (Hpos i1 i2 o1 o2 Hne Ho1 Ho2 E). }
  assert (N1 : mass b1 <> 0) by lra.
  assert (N2 : mass b2 <> 0) by lra.
  eexists. split.
  - apply (pair_update_result G bodies_old live i1 i2 o1 o2 b1 b2); auto.
  - cbv zeta.
    set (d := body_distance o1 o2) in *.
    set (F := G * mass o1 * mass o2 / d).
    set (b1' := add_velocity b1 _ _ _).
    set (b2' := add_velocity b2 _ _ _).
    assert (Hb2' : nth_error (set_at i1 b1' live) i2 = Some b2)
      by (rewrite nth_error_set_at_other; auto).
    unfold pass_invariant, momentum_x, momentum_y, momentum_z in *.
    rewrite !(sum_over_set_at _ i2 b2' b2 _ Hb2').
    rewrite !(sum_over_set_at _ i1 b1' b1 _ Hb1).
    rewrite (map_set_at mass i2 b2' b2 _ Hb2' eq_refl).
    rewrite (map_set_at mass i1 b1' b1 _ Hb1 eq_refl).
    rewrite <- Px, <- Py, <- Pz.
    repeat split; [exact Hm | | | ]; unfold b1', b2'; cbn [add_velocity mass vx vy vz];
      field; auto.
Qed.

Lemma inner_loop_keeps_invariant (G : R) (bodies_old live : list Body)
    (i1 : nat) :
  positive_masses bodies_old -> distinct_positions bodies_old ->
  pass_invariant bodies_old live ->
  exists live',
    inner_loop G bodies_old (length bodies_old) live i1 = Ok live' /\
    pass_invariant bodies_old live'.
Proof.
  intros Hmass Hpos Hinv. unfold inner_loop.
  apply (foldM_invariant (pass_invariant bodies_old)); [| exact Hinv].
  intros a i2 Hin Ha. apply in_seq in Hin.
  apply pair_update_keeps_invariant; auto. lia.
Qed.

(** C1.  When every mass is strictly positive and no two bodies share a
    position, the velocity update (every unordered pair once, positions
    read from the copy taken before the loops) runs to its end and leaves
    the total momentum, the sum of mass times velocity, as it was, in each
    of the three components. *)
Theorem momentum_conserved (G : R) (bodies0 : list Body) :
  positive_masses bodies0 -> distinct_positions bodies0 ->
  exists bodies1,
    update_velocities G bodies0 = Ok bodies1 /\
    momentum_x bodies1 = momentum_x bodies0 /\
    momentum_y bodies1 = momentum_y bodies0 /\
    momentum_z bodies1 = momentum_z bodies0.
Proof.
  intros Hmass Hpos. unfold update_velocities.
  destruct (foldM_invariant (pass_invariant bodies0)
              (inner_loop G bodies0 (length bodies0))
              (seq 0 (length bodies0 - 1))) with (a := bodies0)
    as [bodies1 [E [_ P]]].
  - intros a i1 _ Ha. now apply inner_loop_keeps_invariant.
  - repeat split; reflexivity.
  - exists bodies1. split; [exact E | exact P].
Qed.

(** ** Two bodies on the x axis *)

Lemma magnitude_x_axis (r : R) : magnitude r 0 0 = Rabs r.
Proof.
  unfold magnitude.
  replace (r * r + 0 * 0 + 0 * 0) with (Rsqr r) by (unfold Rsqr; ring).
  apply sqrt_Rsqr_abs.
Qed.

Lemma mkBody_eq (a b c d e f g a' b' c' d' e' f' g' : R) :
  a = a' -> b = b' -> c = c' -> d = d' -> e = e' -> f = f' -> g = g' ->
  mkBody a b c d e f g = mkBody a' b' c' d' e' f' g'.
Proof. intros; subst; reflexivity. Qed.

Lemma distance_ten_apart (a : R) :
  body_distance (resting_unit_body a) (resting_unit_body (a + 10)) = 10 /\
  body_distance (resting_unit_body (a + 10)) (resting_unit_body a) = 10.
Proof.
  unfold body_distance, distance, resting_unit_body; cbn [x y z].
  replace (0 - 0) with 0 by ring. rewrite !magnitude_x_axis.
  replace (a - (a + 10)) with (- (10)) by ring.
  replace (a + 10 - a) with 10 by ring.
  rewrite Rabs_Ropp, Rabs_pos_eq by lra. auto.
Qed.

Lemma two_body_pass (p q : Body) :
  body_distance p q <> 0 -> mass p <> 0 -> mass q <> 0 ->
  update_velocities gravitational_constant [p; q] =
  pair_update gravitational_constant [p; q] [p; q] 0 1.
Proof.
  intros Hd Hp Hq. unfold update_velocities, inner_loop.
  cbn [length Nat.sub Nat.add seq foldM].
  pose proof (pair_update_result gravitational_constant [p; q] [p; q] 0 1
                p q p q (O_S 0) eq_refl eq_refl eq_refl eq_refl Hd Hp Hq) as E.
  cbv zeta in E. rewrite E. reflexivity.
Qed.

(** C6.  Two bodies of mass 1 at rest, 10 apart on the x axis, with G = 1:
    one velocity update gives the body at the lower abscissa the velocity
    (0.1, 0, 0) and the other one (-0.1, 0, 0), whichever of the two comes
    first in the array: equal magnitude 0.1, opposite sign, along the x
    axis, each body pulled toward the other. *)
Theorem two_body_symmetry (a : R) :
  update_velocities gravitational_constant
    [resting_unit_body a; resting_unit_body (a + 10)] =
  Ok [mkBody a 0 0 (1 / 10) 0 0 1; mkBody (a + 10) 0 0 (- (1 / 10)) 0 0 1]
  /\
  update_velocities gravitational_constant
    [resting_unit_body (a + 10); resting_unit_body a] =
  Ok [mkBody (a + 10) 0 0 (- (1 / 10)) 0 0 1; mkBody a 0 0 (1 / 10) 0 0 1].
Proof.
  destruct (distance_ten_apart a) as [D1 D2].
  split.
  - rewrite two_body_pass;
      [| rewrite D1; lra | cbn; lra | cbn; lra].
    pose proof (pair_update_result gravitational_constant
                  [resting_unit_body a; resting_unit_body (a + 10)]
                  [resting_unit_body a; resting_unit_body (a + 10)] 0 1
                  _ _ _ _ (O_S 0) eq_refl eq_refl eq_refl eq_refl) as E.
    cbv zeta in E. rewrite E; [| rewrite D1; lra | cbn; lra | cbn; lra].
    rewrite D1. unfold gravitational_constant, add_velocity, resting_unit_body.
    cbn [set_at x y z vx vy vz mass].
    apply f_equal.
    apply f_equal2; [apply mkBody_eq; field |].
    apply f_equal2; [apply mkBody_eq; field | reflexivity].
  - rewrite two_body_pass;
      [| rewrite D2; lra | cbn; lra | cbn; lra].
    pose proof (pair_update_result gravitational_constant
                  [resting_unit_body (a + 10); resting_unit_body a]
                  [resting_unit_body (a + 10); resting_unit_body a] 0 1
                  _ _ _ _ (O_S 0) eq_refl eq_refl eq_refl eq_refl) as E.
    cbv zeta in E. rewrite E; [| rewrite D2; lra | cbn; lra | cbn; lra].
    rewrite D2. unfold gravitational_constant, add_velocity, resting_unit_body.
    cbn [set_at x y z vx vy vz mass].
    apply f_equal.
    apply f_equal2; [apply mkBody_eq; field |].
    apply f_equal2; [apply mkBody_eq; field | reflexivity].
Qed.

(** ** Coincident bodies *)

Lemma ok_or_div_bind {A B : Type} (Q : A -> Prop) (P : B -> Prop)
    (c : result A) (k : A -> result B) :
  ok_or_div Q c -> (forall a, Q a -> ok_or_div P (k a)) ->
  ok_or_div P (bind c k).
Proof. destruct c as [a | f]; simpl; auto. Qed.

Lemma ok_or_div_fdiv (a b : R) : ok_or_div (fun _ => True) (fdiv a b).
Proof. destruct (fdiv_cases a b) as [[_ ->] | [_ ->]]; simpl; auto. Qed.

Lemma ok_or_div_at_index {A : Type} (l : list A) (i : nat) :
  (i < length l)%nat ->
  ok_or_div (fun a => nth_error l i = Some a) (at_index l i).
Proof. intros H. destruct (at_index_lt l i H) as [a [E ->]]. exact E. Qed.

Lemma ok_or_div_foldM {A I : Type} (P : A -> Prop) (f : A -> I -> result A)
    (l : list I) :
  (forall a i, In i l -> P a -> ok_or_div P (f a i)) ->
  forall a, P a -> ok_or_div P (foldM f l a).
Proof.
  induction l as [| i l IH]; intros Hstep a Ha; simpl; [exact Ha |].
  apply (ok_or_div_bind P); [apply Hstep; simpl; auto |].
  intros a' Ha'. apply IH; [| exact Ha'].
  intros a0 j Hj. apply Hstep. now right.
Qed.

(** A loop one of whose rounds always divides by zero, and whose other
    rounds can fail in no other way, stops on a division by zero. *)
Lemma foldM_reaches_div {A I : Type} (P : A -> Prop) (f : A -> I -> result A)
    (l : list I) (bad : I) :
  In bad l ->
  (forall a, P a -> f a bad = Fault DivByZero) ->
  (forall a i, In i l -> P a -> ok_or_div P (f a i)) ->
  forall a, P a -> foldM f l a = Fault DivByZero.
Proof.
  induction l as [| i l IH]; intros Hin Hbad Hstep a Ha; [contradiction |].
  simpl. destruct Hin as [-> | Hin].
  - rewrite (Hbad a Ha). reflexivity.
  - pose proof (Hstep a i (or_introl eq_refl) Ha) as Hi.
    destruct (f a i) as [a' | flt]; simpl in *.
    + apply IH; [exact Hin | exact Hbad | | exact Hi].
      intros a0 j Hj. apply Hstep. now right.
    + now rewrite Hi.
Qed.

Lemma pair_update_ok_or_div (G : R) (bodies_old live : list Body)
    (i1 i2 : nat) :
  (i1 < length bodies_old)%nat -> (i2 < length bodies_old)%nat ->
  length live = length bodies_old ->
  ok_or_div (fun live' => length live' = length bodies_old)
            (pair_update G bodies_old live i1 i2).
Proof.
  intros H1 H2 HL. unfold pair_update.
  apply (ok_or_div_bind _ _ _ _ (ok_or_div_at_index bodies_old i1 H1)).
  intros o1 _.
  apply (ok_or_div_bind _ _ _ _ (ok_or_div_at_index bodies_old i2 H2)).
  intros o2 _.
  apply (ok_or_div_bind (fun _ => True)).
  { unfold newton_law_of_universal_gravitation.
    apply (ok_or_div_bind _ _ _ _ (ok_or_div_fdiv _ _)). simpl. auto. }
  intros force _.
  do 3 (apply (ok_or_div_bind _ _ _ _ (ok_or_div_fdiv _ _)); intros ? _).
  apply (ok_or_div_bind (fun _ => True)).
  { destruct (at_index_lt live i1) as [b [_ ->]]; [lia | exact I]. }
  intros b1 _.
  do 3 (apply (ok_or_div_bind _ _ _ _ (ok_or_div_fdiv _ _)); intros ? _).
  apply (ok_or_div_bind (fun _ => True)).
  { destruct (at_index_lt (set_at i1 (add_velocity b1 a2 a3 a4) live) i2)
      as [b [_ ->]]; [rewrite length_set_at; lia | exact I]. }
  intros b2 _.
  do 3 (apply (ok_or_div_bind _ _ _ _ (ok_or_div_fdiv _ _)); intros ? _).
  simpl. rewrite !length_set_at. exact HL.
Qed.

Lemma pair_update_coincident (G : R) (bodies_old live : list Body)
    (i1 i2 : nat) (o1 o2 : Body) :
  nth_error bodies_old i1 = Some o1 -> nth_error bodies_old i2 = Some o2 ->
  same_position o1 o2 ->
  pair_update G bodies_old live i1 i2 = Fault DivByZero.
Proof.
  intros Ho1 Ho2 Hsame. unfold pair_update.
  rewrite (at_index_some _ _ _ Ho1), (at_index_some _ _ _ Ho2). cbn [bind].
  unfold newton_law_of_universal_gravitation.
  fold (body_distance o1 o2).
  rewrite (proj2 (body_distance_zero_iff o1 o2) Hsame).
  rewrite fdiv_zero. reflexivity.
Qed.

(** C8.  Two bodies at the same reference position: the distance of the
    force step is 0 and so is the length of the direction vector; the
    division by the distance in the force and the divisions by that length
    in the normalisation are divisions by zero; nothing guards them, and the
    velocity update of any collection that holds such a pair reaches one. *)
Theorem coincident_bodies_divide_by_zero (G : R) (bodies0 : list Body)
    (i j : nat) (bi bj : Body) :
  (i < j)%nat ->
  nth_error bodies0 i = Some bi -> nth_error bodies0 j = Some bj ->
  same_position bi bj ->
  body_distance bi bj = 0 /\
  magnitude (x bj - x bi) (y bj - y bi) (z bj - z bi) = 0 /\
  newton_law_of_universal_gravitation G (mass bi) (mass bj)
    (body_distance bi bj) = Fault DivByZero /\
  fdiv (x bj - x bi) (magnitude (x bj - x bi) (y bj - y bi) (z bj - z bi))
    = Fault DivByZero /\
  fdiv (y bj - y bi) (magnitude (x bj - x bi) (y bj - y bi) (z bj - z bi))
    = Fault DivByZero /\
  fdiv (z bj - z bi) (magnitude (x bj - x bi) (y bj - y bi) (z bj - z bi))
    = Fault DivByZero /\
  update_velocities G bodies0 = Fault DivByZero.
Proof.
  intros Hij Hi Hj Hsame.
  assert (D0 : body_distance bi bj = 0) by now apply body_distance_zero_iff.
  assert (M0 : magnitude (x bj - x bi) (y bj - y bi) (z bj - z bi) = 0)
    by now rewrite direction_magnitude.
  assert (Lj : (j < length bodies0)%nat) by (apply nth_error_Some; congruence).
  split; [exact D0 |]. split; [exact M0 |].
  split.
  { unfold newton_law_of_universal_gravitation.
    rewrite D0, fdiv_zero. reflexivity. }
  rewrite M0. do 3 (split; [apply fdiv_zero |]).
  unfold update_velocities.
  apply (foldM_reaches_div (fun live => length live = length bodies0)) with (bad := i).
  - apply in_seq. lia.
  - intros live HL. unfold inner_loop.
    apply (foldM_reaches_div (fun live => length live = length bodies0))
      with (bad := j).
    + apply in_seq. lia.
    + intros live' _. now apply (pair_update_coincident G _ _ i j bi bj).
    + intros live' i2 Hin HL'. apply in_seq in Hin.
      apply pair_update_ok_or_div; auto; lia.
    + exact HL.
  - intros live i1 Hin HL. apply in_seq in Hin. unfold inner_loop.
    apply ok_or_div_foldM; [| exact HL].
    intros live' i2 Hin2 HL'. apply in_seq in Hin2.
    apply pair_update_ok_or_div; auto; lia.
  - reflexivity.
Qed.

(** ** Concrete runs of the velocity update *)

Lemma two_bodies_positive : positive_masses two_bodies.
Proof. intros b [<- | [<- | []]]; cbn; lra. Defined.

Lemma two_bodies_distinct : distinct_positions two_bodies.
Proof.
  intros i j bi bj Hne Hi Hj [Hx _].
  destruct i as [| [| i]], j as [| [| j]];
    try (now elim Hne);
    try (destruct i; discriminate Hi);
    try (destruct j; discriminate Hj);
    cbn in Hi, Hj; injection Hi as <-; injection Hj as <-; cbn in Hx; lra.
Defined.

(** The two-body collection satisfies both conditions of the conservation
    theorem. *)
Lemma momentum_conserved_witness :
  exists bodies1,
    update_velocities gravitational_constant two_bodies = Ok bodies1 /\
    momentum_x bodies1 = momentum_x two_bodies /\
    momentum_y bodies1 = momentum_y two_bodies /\
    momentum_z bodies1 = momentum_z two_bodies.
Proof.
  exact (momentum_conserved gravitational_constant two_bodies
           two_bodies_positive two_bodies_distinct).
Defined.

(** The round for the two bodies of the two-body collection: the force is
    as the formula says and the first body, at rest before, gets the
    velocity 1/10 along x. *)
Lemma pair_force_formula_witness :
  newton_law_of_universal_gravitation 1 1 1
    (body_distance (resting_unit_body 0) (resting_unit_body (0 + 10)))
  = Ok (1 * 1 * 1
        / body_distance (resting_unit_body 0) (resting_unit_body (0 + 10))) /\
  exists live' p',
    pair_update 1 two_bodies two_bodies 0 1 = Ok live' /\
    nth_error live' 0 = Some p' /\ vx p' = 1 / 10.
Proof.
  assert (D : body_distance (resting_unit_body 0) (resting_unit_body (0 + 10))
              = 10) by exact (proj1 (distance_ten_apart 0)).
  assert (Hpos : 0 < body_distance (resting_unit_body 0)
                       (resting_unit_body (0 + 10))) by (rewrite D; lra).
  destruct (pair_force_formula 1 two_bodies two_bodies 0 1
              (resting_unit_body 0) (resting_unit_body (0 + 10))
              (resting_unit_body 0) (resting_unit_body (0 + 10))
              (O_S 0) eq_refl eq_refl eq_refl eq_refl Hpos) as [HF [_ Hupd]].
  split; [exact HF |].
  destruct Hupd as [live' [E [H1 _]]];
    [cbn [resting_unit_body mass]; lra | cbn [resting_unit_body mass]; lra |].
  exists live'. eexists. split; [exact E |]. split; [exact H1 |].
  cbn [vx resting_unit_body x mass]. rewrite D. field.
Defined.

(** Two bodies stacked at the origin: the update divides by zero. *)
Lemma coincident_bodies_divide_by_zero_witness :
  update_velocities gravitational_constant stacked_bodies = Fault DivByZero.
Proof.
  refine (proj2 (proj2 (proj2 (proj2 (proj2 (proj2
            (coincident_bodies_divide_by_zero gravitational_constant
               stacked_bodies 0 1 (resting_unit_body 0) (resting_unit_body 0)
               _ eq_refl eq_refl _))))))).
  - lia.
  - repeat split; reflexivity.
Defined.

(** ** Recentring *)

Lemma position_sums_from (l : list Body) (a b c : R) :
  fold_left
    (fun '(xsum, ysum, zsum) body =>
       (xsum + x body, ysum + y body, zsum + z body)) l (a, b, c)
  = (a + sum_over x l, b + sum_over y l, c + sum_over z l).
Proof.
  revert a b c. induction l as [| h t IH]; intros a b c; simpl.
  - f_equal; [f_equal |]; ring.
  - rewrite IH. f_equal; [f_equal |]; ring.
Qed.

Lemma position_sums_spec (l : list Body) :
  position_sums l = (sum_over x l, sum_over y l, sum_over z l).
Proof.
  unfold position_sums. rewrite position_sums_from.
  f_equal; [f_equal |]; ring.
Qed.

Lemma sum_over_shifted (f : Body -> R) (g : Body -> Body) (c : R)
    (l : list Body) :
  (forall b, f (g b) = f b - c) ->
  sum_over f (map g l) = sum_over f l - INR (length l) * c.
Proof.
  intros Hg. induction l as [| h t IH].
  - simpl. ring.
  - cbn [map sum_over fold_right length]. fold (sum_over f (map g t)).
    fold (sum_over f t). rewrite IH, Hg, S_INR. ring.
Qed.

(** C4.  Recentring a collection that holds at least one body returns the
    collection in which the centroid of the current positions was
    subtracted from every position; the arithmetic mean of the positions is
    then the origin, exactly, and the difference vector between any two
    bodies is what it was. *)
Theorem recenter_pins_centroid (bodies0 : list Body) :
  bodies0 <> [] ->
  exists bodies1,
    recenter bodies0 = Ok bodies1 /\
    bodies1 =
      map (fun body => sub_position body (mean_of x bodies0)
                         (mean_of y bodies0) (mean_of z bodies0)) bodies0 /\
    mean_of x bodies1 = 0 /\ mean_of y bodies1 = 0 /\ mean_of z bodies1 = 0 /\
    forall i j bi bj bi' bj',
      nth_error bodies0 i = Some bi -> nth_error bodies0 j = Some bj ->
      nth_error bodies1 i = Some bi' -> nth_error bodies1 j = Some bj' ->
      x bi' - x bj' = x bi - x bj /\
      y bi' - y bj' = y bi - y bj /\
      z bi' - z bj' = z bi - z bj.
Proof.
  intros Hne.
  assert (Hn : INR (length bodies0) <> 0).
  { apply not_0_INR. destruct bodies0; [contradiction | discriminate]. }
  exists (map (fun body => sub_position body (mean_of x bodies0)
                            (mean_of y bodies0) (mean_of z bodies0)) bodies0).
  split; [| split; [reflexivity |]].
  - unfold recenter. rewrite position_sums_spec.
    rewrite !(fdiv_ok _ _ Hn). cbn [bind]. reflexivity.
  - set (cx := mean_of x bodies0). set (cy := mean_of y bodies0).
    set (cz := mean_of z bodies0).
    assert (Mx : mean_of x (map (fun body => sub_position body cx cy cz) bodies0) = 0).
    { unfold mean_of. rewrite length_map.
      rewrite (sum_over_shifted x _ cx) by reflexivity.
      unfold cx, mean_of. field. exact Hn. }
    assert (My : mean_of y (map (fun body => sub_position body cx cy cz) bodies0) = 0).
    { unfold mean_of. rewrite length_map.
      rewrite (sum_over_shifted y _ cy) by reflexivity.
      unfold cy, mean_of. field. exact Hn. }
    assert (Mz : mean_of z (map (fun body => sub_position body cx cy cz) bodies0) = 0).
    { unfold mean_of. rewrite length_map.
      rewrite (sum_over_shifted z _ cz) by reflexivity.
      unfold cz, mean_of. field. exact Hn. }
    split; [exact Mx |]. split; [exact My |]. split; [exact Mz |].
    intros i j bi bj bi' bj' Hi Hj Hi' Hj'.
    rewrite (map_nth_error _ _ _ Hi) in Hi'.
    rewrite (map_nth_error _ _ _ Hj) in Hj'.
    injection Hi' as <-. injection Hj' as <-.
    cbn [sub_position x y z]. repeat split; ring.
Qed.

(** Recentring the two-body collection. *)
Lemma recenter_pins_centroid_witness :
  exists bodies1,
    recenter two_bodies = Ok bodies1 /\
    mean_of x bodies1 = 0 /\ mean_of y bodies1 = 0 /\ mean_of z bodies1 = 0.
Proof.
  destruct (recenter_pins_centroid two_bodies) as [bodies1 [E [_ [Mx [My [Mz _]]]]]].
  - discriminate.
  - exists bodies1. auto.
Defined.

(** ** The bounds the renderer computes *)

Lemma DBL_MIN_pos : 0 < DBL_MIN.
Proof. unfold DBL_MIN. apply Rinv_0_lt_compat, pow_lt. lra. Qed.

Lemma inv_pow2_le_1 (n : nat) : / 2 ^ n <= 1.
Proof.
  apply Rle_trans with (/ 1); [| rewrite Rinv_1; lra].
  apply Rinv_le_contravar; [lra | apply pow_R1_Rle; lra].
Qed.

Lemma DBL_MIN_le_1 : DBL_MIN <= 1.
Proof. unfold DBL_MIN. apply inv_pow2_le_1. Qed.

Lemma DBL_MAX_ge_1 : 1 <= DBL_MAX.
Proof.
  unfold DBL_MAX.
  pose proof (inv_pow2_le_1 52) as H52.
  assert (H1023 : 1 <= 2 ^ 1023) by (apply pow_R1_Rle; lra).
  nra.
Qed.

Lemma raise_gt (h v : R) : v > h -> raise h v = v.
Proof. intros H. unfold raise. destruct (Rgt_dec v h); [reflexivity | contradiction]. Qed.

Lemma raise_le (h v : R) : v <= h -> raise h v = h.
Proof. intros H. unfold raise. destruct (Rgt_dec v h); [lra | reflexivity]. Qed.

Lemma lower_lt (l v : R) : v < l -> lower l v = v.
Proof. intros H. unfold lower. destruct (Rlt_dec v l); [reflexivity | contradiction]. Qed.

Lemma lower_ge (l v : R) : l <= v -> lower l v = l.
Proof. intros H. unfold lower. destruct (Rlt_dec v l); [lra | reflexivity]. Qed.

(** The running maximum and minimum over a list of coordinates. *)
Lemma raise_fold_ge_start (l : list R) (h : R) : h <= fold_left raise l h.
Proof.
  revert h. induction l as [| v l IH]; intros h; simpl; [lra |].
  apply Rle_trans with (raise h v); [| apply IH].
  unfold raise. destruct (Rgt_dec v h); lra.
Qed.

Lemma raise_fold_ge_elem (l : list R) (h v : R) :
  In v l -> v <= fold_left raise l h.
Proof.
  revert h. induction l as [| u l IH]; intros h Hin; [contradiction |].
  simpl. destruct Hin as [-> | Hin]; [| now apply IH].
  apply Rle_trans with (raise h v); [| apply raise_fold_ge_start].
  unfold raise. destruct (Rgt_dec v h); lra.
Qed.

Lemma lower_fold_le_start (l : list R) (h : R) : fold_left lower l h <= h.
Proof.
  revert h. induction l as [| v l IH]; intros h; simpl; [lra |].
  apply Rle_trans with (lower h v); [apply IH |].
  unfold lower. destruct (Rlt_dec v h); lra.
Qed.

Lemma lower_fold_le_elem (l : list R) (h v : R) :
  In v l -> fold_left lower l h <= v.
Proof.
  revert h. induction l as [| u l IH]; intros h Hin; [contradiction |].
  simpl. destruct Hin as [-> | Hin]; [| now apply IH].
  apply Rle_trans with (lower h v); [apply lower_fold_le_start |].
  unfold lower. destruct (Rlt_dec v h); lra.
Qed.

(** Each of the six bounds is a running maximum or minimum of its own. *)
Lemma bounds_fold (l : list Body) (b : Bounds) :
  fold_left bounds_step l b =
  mkBounds (fold_left raise (map x l) (highest_x b))
           (fold_left raise (map y l) (highest_y b))
           (fold_left raise (map z l) (highest_z b))
           (fold_left lower (map x l) (lowest_x b))
           (fold_left lower (map y l) (lowest_y b))
           (fold_left lower (map z l) (lowest_z b)).
Proof.
  revert b. induction l as [| body l IH]; intros b; simpl.
  - now destruct b.
  - rewrite IH. reflexivity.
Qed.

Lemma bounds_of_spec (l : list Body) :
  bounds_of l =
  mkBounds (fold_left raise (map x l) DBL_MIN)
           (fold_left raise (map y l) DBL_MIN)
           (fold_left raise (map z l) DBL_MIN)
           (fold_left lower (map x l) DBL_MAX)
           (fold_left lower (map y l) DBL_MAX)
           (fold_left lower (map z l) DBL_MAX).
Proof. unfold bounds_of. now rewrite bounds_fold. Qed.

(** Every body lies between the bounds, on each axis. *)
Lemma body_within_bounds (l : list Body) (body : Body) :
  In body l ->
  let b := bounds_of l in
  lowest_x b <= x body <= highest_x b /\
  lowest_y b <= y body <= highest_y b /\
  lowest_z b <= z body <= highest_z b.
Proof.
  intros Hin. cbv zeta. rewrite bounds_of_spec. cbn [lowest_x lowest_y lowest_z
    highest_x highest_y highest_z].
  repeat split;
    first [ apply lower_fold_le_elem | apply raise_fold_ge_elem ];
    now apply in_map.
Qed.

(** The highest bound is never below the value it starts from. *)
Lemma highest_at_least_DBL_MIN (l : list Body) :
  DBL_MIN <= highest_x (bounds_of l) /\
  DBL_MIN <= highest_y (bounds_of l) /\
  DBL_MIN <= highest_z (bounds_of l).
Proof.
  rewrite bounds_of_spec. cbn [highest_x highest_y highest_z].
  repeat split; apply raise_fold_ge_start.
Qed.

(** The running minimum started at [DBL_MAX] is the least coordinate, for
    coordinates that a double can hold. *)
Lemma lower_fold_attained (l : list R) (h : R) :
  fold_left lower l h = h \/ In (fold_left lower l h) l.
Proof.
  revert h. induction l as [| v l IH]; intros h; simpl; [now left |].
  destruct (IH (lower h v)) as [E | Hin]; [| now right; right].
  rewrite E. unfold lower. destruct (Rlt_dec v h); [right; now left | now left].
Qed.

Lemma lower_fold_is_minimum (l : list R) :
  l <> [] -> (forall v, In v l -> v <= DBL_MAX) ->
  In (fold_left lower l DBL_MAX) l /\
  forall v, In v l -> fold_left lower l DBL_MAX <= v.
Proof.
  intros Hne Hfin. split; [| intros v Hv; now apply lower_fold_le_elem].
  destruct (lower_fold_attained l DBL_MAX) as [E | Hin]; [| exact Hin].
  destruct l as [| v l]; [contradiction |].
  assert (Hv : v = DBL_MAX).
  { apply Rle_antisym; [apply Hfin; now left |].
    rewrite <- E. apply lower_fold_le_elem. now left. }
  rewrite E, <- Hv. now left.
Qed.

(** The running maximum started at [DBL_MIN] is the greatest coordinate only
    when some coordinate reaches [DBL_MIN]; below, it stays [DBL_MIN]. *)
Lemma raise_fold_attained (l : list R) (h : R) :
  fold_left raise l h = h \/ In (fold_left raise l h) l.
Proof.
  revert h. induction l as [| v l IH]; intros h; simpl; [now left |].
  destruct (IH (raise h v)) as [E | Hin]; [| now right; right].
  rewrite E. unfold raise. destruct (Rgt_dec v h); [right; now left | now left].
Qed.

Lemma raise_fold_is_maximum (l : list R) :
  (exists v, In v l /\ DBL_MIN <= v) ->
  In (fold_left raise l DBL_MIN) l /\
  forall v, In v l -> v <= fold_left raise l DBL_MIN.
Proof.
  intros [v [Hv Hge]]. split; [| intros u Hu; now apply raise_fold_ge_elem].
  destruct (raise_fold_attained l DBL_MIN) as [E | Hin]; [| exact Hin].
  assert (Ev : v = DBL_MIN).
  { apply Rle_antisym; [| exact Hge].
    rewrite <- E. now apply raise_fold_ge_elem. }
  rewrite E, <- Ev. exact Hv.
Qed.

Lemma raise_fold_below_start (l : list R) (h : R) :
  (forall v, In v l -> v <= h) -> fold_left raise l h = h.
Proof.
  induction l as [| v l IH]; intros Hle; simpl; [reflexivity |].
  rewrite raise_le by (apply Hle; now left).
  apply IH. intros u Hu. apply Hle. now right.
Qed.

(** The three lowest bounds are the minima of the coordinates. *)
Lemma lowest_bounds_are_minima (l : list Body) :
  l <> [] ->
  (forall body, In body l ->
     x body <= DBL_MAX /\ y body <= DBL_MAX /\ z body <= DBL_MAX) ->
  (In (lowest_x (bounds_of l)) (map x l) /\
   forall body, In body l -> lowest_x (bounds_of l) <= x body) /\
  (In (lowest_y (bounds_of l)) (map y l) /\
   forall body, In body l -> lowest_y (bounds_of l) <= y body) /\
  (In (lowest_z (bounds_of l)) (map z l) /\
   forall body, In body l -> lowest_z (bounds_of l) <= z body).
Proof.
  intros Hne Hfin. rewrite bounds_of_spec. cbn [lowest_x lowest_y lowest_z].
  assert (Hmap : forall f : Body -> R, map f l <> [])
    by (intros f E; apply map_eq_nil in E; contradiction).
  repeat split.
  all: try (apply lower_fold_is_minimum; [apply Hmap |];
            intros v Hv; apply in_map_iff in Hv; destruct Hv as [b [<- Hb]];
            apply (Hfin b Hb)).
  all: intros body Hb; apply lower_fold_le_elem; now apply in_map.
Qed.

(** A highest bound is the maximum of its coordinate as soon as one body
    has that coordinate at [DBL_MIN] or above, and is [DBL_MIN] when every
    body has it below. *)
Lemma highest_x_is_maximum (l : list Body) :
  (exists body, In body l /\ DBL_MIN <= x body) ->
  In (highest_x (bounds_of l)) (map x l) /\
  forall body, In body l -> x body <= highest_x (bounds_of l).
Proof.
  intros [body [Hb Hge]]. rewrite bounds_of_spec. cbn [highest_x].
  destruct (raise_fold_is_maximum (map x l)) as [Hin Hmax].
  - exists (x body). split; [now apply in_map | exact Hge].
  - split; [exact Hin |]. intros b Hin'. apply Hmax. now apply in_map.
Qed.

Lemma highest_x_stuck (l : list Body) :
  (forall body, In body l -> x body <= DBL_MIN) ->
  highest_x (bounds_of l) = DBL_MIN.
Proof.
  intros Hlow. rewrite bounds_of_spec. cbn [highest_x].
  apply raise_fold_below_start. intros v Hv.
  apply in_map_iff in Hv. destruct Hv as [b [<- Hb]]. now apply Hlow.
Qed.

(** C2.  The bounds of the collection that holds the one body
    (-1, -1, -1): the three lowest bounds are -1, the minimum, but the three
    highest bounds are still [numeric_limits<double>::min()], a positive
    number, and not -1, the maximum of the coordinate. *)
Theorem bounds_of_negative_body :
  bounds_of [negative_body] =
    mkBounds DBL_MIN DBL_MIN DBL_MIN (- 1) (- 1) (- 1) /\
  highest_x (bounds_of [negative_body]) <> x negative_body /\
  highest_y (bounds_of [negative_body]) <> y negative_body /\
  highest_z (bounds_of [negative_body]) <> z negative_body.
Proof.
  pose proof DBL_MIN_pos as Hmin. pose proof DBL_MAX_ge_1 as Hmax.
  assert (E : bounds_of [negative_body] =
              mkBounds DBL_MIN DBL_MIN DBL_MIN (- 1) (- 1) (- 1)).
  { unfold bounds_of, bounds_step, initial_bounds, negative_body, raise, lower.
    cbn [fold_left x y z highest_x highest_y highest_z
         lowest_x lowest_y lowest_z].
    destruct (Rgt_dec (- 1) DBL_MIN); [lra |].
    destruct (Rlt_dec (- 1) DBL_MAX); [reflexivity | lra]. }
  rewrite E. cbn [highest_x highest_y highest_z negative_body x y z].
  repeat split; lra.
Qed.

(** ** The indices the renderer computes *)

Lemma UINT_SIZE_eq : UINT_SIZE = 4294967296%Z.
Proof. reflexivity. Qed.

Lemma z_size_eq : z_size = 16%Z.
Proof. reflexivity. Qed.

Lemma to_uint_ok (v : Z) : (0 <= v < UINT_SIZE)%Z -> to_uint v = Ok v.
Proof.
  intros [H0 H1]. unfold to_uint.
  rewrite (proj2 (Z.leb_le 0 v) H0), (proj2 (Z.ltb_lt v UINT_SIZE) H1).
  reflexivity.
Qed.

Lemma to_uint_inv (v k : Z) : to_uint v = Ok k -> k = v /\ (0 <= v < UINT_SIZE)%Z.
Proof.
  unfold to_uint. intros H.
  destruct (0 <=? v)%Z eqn:E0; destruct (v <? UINT_SIZE)%Z eqn:E1;
    simpl in H; try discriminate.
  injection H as <-. apply Z.leb_le in E0. apply Z.ltb_lt in E1. auto.
Qed.

(** Rounding a real of [[0, m]], [m] an integer, gives an integer of
    [[0, m]]. *)
Lemma c_round_range (r : R) (m : Z) :
  0 <= r <= IZR m -> (0 <= c_round r <= m)%Z.
Proof.
  intros [H0 Hm]. unfold c_round.
  destruct (Rle_dec 0 r) as [_ | N]; [| contradiction].
  destruct (base_Int_part (r + / 2)) as [Hle Hgt].
  split.
  - assert (H : (-1 < Int_part (r + / 2))%Z) by (apply lt_IZR; lra). lia.
  - assert (H : (Int_part (r + / 2) < m + 1)%Z)
      by (apply lt_IZR; rewrite plus_IZR; lra).
    lia.
Qed.

(** The quotient of the inverse interpolation lies in [[0, 1]]. *)
Lemma inverse_lerp_range (v lo hi : R) :
  lo <= v <= hi -> lo < hi -> 0 <= (v - lo) / (hi - lo) <= 1.
Proof.
  intros [H1 H2] Hlt.
  assert (Hpos : 0 < / (hi - lo)) by (apply Rinv_0_lt_compat; lra).
  assert (E : (hi - lo) * / (hi - lo) = 1) by (apply Rinv_r; lra).
  unfold Rdiv. split; nra.
Qed.

Lemma grid_index_range (v lo hi : R) (cells : Z) :
  lo <= v <= hi -> lo < hi -> (1 <= cells < UINT_SIZE)%Z ->
  exists k, grid_index v lo hi cells = Ok k /\ (0 <= k <= cells - 1)%Z.
Proof.
  intros Hv Hlt Hc. unfold grid_index.
  rewrite fdiv_ok by lra. cbn [bind].
  assert (Es : uint_sub cells 1 = (cells - 1)%Z)
    by (unfold uint_sub; apply Z.mod_small; lia).
  rewrite Es.
  pose proof (inverse_lerp_range v lo hi Hv Hlt) as [T0 T1].
  assert (Hc0 : 0 <= IZR (cells - 1)) by (apply IZR_le; lia).
  assert (Hr : (0 <= c_round ((v - lo) / (hi - lo) * IZR (cells - 1))
                <= cells - 1)%Z) by (apply c_round_range; split; nra).
  eexists. split; [apply to_uint_ok; lia | exact Hr].
Qed.

Lemma blank_lines_shape (height width : Z) :
  grid_shape height width (blank_lines height width).
Proof.
  unfold grid_shape, blank_lines. split.
  - apply repeat_length.
  - apply Forall_forall. intros line Hin.
    apply repeat_spec in Hin. subst. apply repeat_length.
Qed.

Lemma Forall_set_at {A : Type} (Q : A -> Prop) (i : nat) (a : A) (l : list A) :
  Forall Q l -> Q a -> Forall Q (set_at i a l).
Proof.
  intros Hl Ha. revert i.
  induction Hl as [| h t Hh Ht IH]; intros [| i]; simpl; auto.
Qed.

Lemma write_cell_ok (height width : Z) (lines : list (list ascii))
    (yi xi : Z) (c : ascii) :
  grid_shape height width lines ->
  (0 <= yi <= height - 1)%Z -> (0 <= xi <= width - 1)%Z ->
  exists lines',
    write_cell lines yi xi c = Ok lines' /\ grid_shape height width lines'.
Proof.
  intros [HL HF] Hy Hx. unfold write_cell.
  destruct (at_index_lt lines (Z.to_nat yi)) as [line [Hn ->]]; [lia |].
  cbn [bind].
  assert (Hlen : length line = Z.to_nat width).
  { rewrite Forall_forall in HF. apply HF. eapply nth_error_In; eauto. }
  assert (Hlt : (Z.to_nat xi <? length line)%nat = true)
    by (apply Nat.ltb_lt; lia).
  rewrite Hlt. eexists. split; [reflexivity |].
  split.
  - now rewrite length_set_at.
  - apply Forall_set_at; [exact HF |]. now rewrite length_set_at.
Qed.

(** With a positive extent on each axis, the three indices of a body of the
    collection are defined and in range. *)
Lemma body_cell_range (height width : Z) (bodies0 : list Body) (body : Body) :
  (1 <= height < UINT_SIZE)%Z -> (1 <= width < UINT_SIZE)%Z ->
  lowest_x (bounds_of bodies0) < highest_x (bounds_of bodies0) ->
  lowest_y (bounds_of bodies0) < highest_y (bounds_of bodies0) ->
  lowest_z (bounds_of bodies0) < highest_z (bounds_of bodies0) ->
  In body bodies0 ->
  exists xi yi zi,
    body_cell height width (bounds_of bodies0) body = Ok (xi, yi, zi) /\
    (0 <= xi <= width - 1)%Z /\ (0 <= yi <= height - 1)%Z /\
    (0 <= zi <= 15)%Z.
Proof.
  intros Hh Hw Ex Ey Ez Hin.
  destruct (body_within_bounds bodies0 body Hin) as [Bx [By Bz]].
  destruct (grid_index_range _ _ _ width Bx Ex Hw) as [xi [Gx Rx]].
  destruct (grid_index_range _ _ _ height By Ey Hh) as [yi [Gy Ry]].
  destruct (grid_index_range (z body) _ _ z_size Bz Ez) as [zi [Gz Rz]].
  { rewrite z_size_eq, UINT_SIZE_eq. lia. }
  exists xi, yi, zi. unfold body_cell.
  rewrite Gx; cbn [bind]. rewrite Gy; cbn [bind]. rewrite Gz; cbn [bind].
  rewrite z_size_eq in Rz. repeat split; try lia.
Qed.

Lemma plot_ok (height width : Z) (bodies0 : list Body)
    (lines : list (list ascii)) (body : Body) :
  (1 <= height < UINT_SIZE)%Z -> (1 <= width < UINT_SIZE)%Z ->
  lowest_x (bounds_of bodies0) < highest_x (bounds_of bodies0) ->
  lowest_y (bounds_of bodies0) < highest_y (bounds_of bodies0) ->
  lowest_z (bounds_of bodies0) < highest_z (bounds_of bodies0) ->
  In body bodies0 -> grid_shape height width lines ->
  exists lines',
    plot height width (bounds_of bodies0) lines body = Ok lines' /\
    grid_shape height width lines'.
Proof.
  intros Hh Hw Ex Ey Ez Hin Hs.
  destruct (body_cell_range height width bodies0 body Hh Hw Ex Ey Ez Hin)
    as [xi [yi [zi [E [Rx [Ry Rz]]]]]].
  unfold plot. rewrite E. cbn [bind].
  destruct (at_index_lt z_characters (Z.to_nat zi)) as [c [_ ->]].
  { change (length z_characters) with 16%nat. lia. }
  cbn [bind]. now apply (write_cell_ok height width).
Qed.

Lemma render_lines_total (height width : Z) (bodies0 : list Body) :
  (1 <= height < UINT_SIZE)%Z -> (1 <= width < UINT_SIZE)%Z ->
  lowest_x (bounds_of bodies0) < highest_x (bounds_of bodies0) ->
  lowest_y (bounds_of bodies0) < highest_y (bounds_of bodies0) ->
  lowest_z (bounds_of bodies0) < highest_z (bounds_of bodies0) ->
  exists lines,
    render_lines height width bodies0 = Ok lines /\
    grid_shape height width lines.
Proof.
  intros Hh Hw Ex Ey Ez. unfold render_lines.
  apply (foldM_invariant (grid_shape height width)).
  - intros lines body Hin Hs. now apply plot_ok.
  - apply blank_lines_shape.
Qed.



(** ** Which body a cell shows *)

Lemma bind_ok_inv {A B : Type} (c : result A) (k : A -> result B) (b : B) :
  bind c k = Ok b -> exists a, c = Ok a /\ k a = Ok b.
Proof. destruct c as [a | f]; simpl; [eauto | discriminate]. Qed.

Lemma at_index_inv {A : Type} (l : list A) (i : nat) (a : A) :
  at_index l i = Ok a -> nth_error l i = Some a.
Proof.
  unfold at_index. destruct (nth_error l i); [congruence | discriminate].
Qed.

Lemma foldM_ok_preserves {A I : Type} (P : A -> Prop) (f : A -> I -> result A)
    (l : list I) :
  (forall a i a', f a i = Ok a' -> P a -> P a') ->
  forall a a', foldM f l a = Ok a' -> P a -> P a'.
Proof.
  intros Hstep. induction l as [| i l IH]; intros a a' E Ha; simpl in E.
  - now injection E as <-.
  - apply bind_ok_inv in E. destruct E as [a1 [E1 E2]].
    apply (IH a1 a' E2). now apply (Hstep a i).
Qed.

Lemma grid_index_inv (v lo hi : R) (cells k : Z) :
  grid_index v lo hi cells = Ok k -> (0 <= k < UINT_SIZE)%Z.
Proof.
  unfold grid_index. intros E. apply bind_ok_inv in E.
  destruct E as [t [_ E]]. apply to_uint_inv in E. destruct E as [-> H]. exact H.
Qed.

Lemma body_cell_nonneg (height width : Z) (b : Bounds) (body : Body)
    (xi yi zi : Z) :
  body_cell height width b body = Ok (xi, yi, zi) ->
  (0 <= xi)%Z /\ (0 <= yi)%Z /\ (0 <= zi)%Z.
Proof.
  unfold body_cell. intros E.
  apply bind_ok_inv in E. destruct E as [x0 [Ex E]].
  apply bind_ok_inv in E. destruct E as [y0 [Ey E]].
  apply bind_ok_inv in E. destruct E as [z0 [Ez E]].
  injection E as <- <- <-.
  apply grid_index_inv in Ex, Ey, Ez. lia.
Qed.

Lemma write_cell_inv (lines lines' : list (list ascii)) (yi xi : Z) (c : ascii) :
  write_cell lines yi xi c = Ok lines' ->
  length lines' = length lines /\
  (forall w, Forall (fun line => length line = w) lines ->
             Forall (fun line => length line = w) lines') /\
  grid_cell lines' (Z.to_nat yi) (Z.to_nat xi) = Some c /\
  forall r k, (r, k) <> (Z.to_nat yi, Z.to_nat xi) ->
              grid_cell lines' r k = grid_cell lines r k.
Proof.
  unfold write_cell. intros E.
  apply bind_ok_inv in E. destruct E as [line [Hl E]].
  apply at_index_inv in Hl.
  destruct (Z.to_nat xi <? length line)%nat eqn:Hx; [| discriminate].
  apply Nat.ltb_lt in Hx. injection E as <-.
  assert (Hy : (Z.to_nat yi < length lines)%nat)
    by (apply nth_error_Some; congruence).
  split; [apply length_set_at |]. split; [| split].
  - intros w HF. apply Forall_set_at; [exact HF |].
    rewrite length_set_at. rewrite Forall_forall in HF. apply HF.
    eapply nth_error_In; eauto.
  - unfold grid_cell. rewrite nth_error_set_at_same by exact Hy.
    now apply nth_error_set_at_same.
  - intros r k Hne. unfold grid_cell.
    destruct (Nat.eq_dec (Z.to_nat yi) r) as [<- | Hr].
    + rewrite nth_error_set_at_same by exact Hy. rewrite Hl.
      apply nth_error_set_at_other. intros <-. now apply Hne.
    + now rewrite nth_error_set_at_other.
Qed.

Lemma plot_inv (height width : Z) (b : Bounds) (lines lines' : list (list ascii))
    (body : Body) :
  plot height width b lines body = Ok lines' ->
  exists xi yi zi c,
    body_cell height width b body = Ok (xi, yi, zi) /\
    nth_error z_characters (Z.to_nat zi) = Some c /\
    write_cell lines yi xi c = Ok lines'.
Proof.
  unfold plot. intros E.
  apply bind_ok_inv in E. destruct E as [[[xi yi] zi] [Ec E]].
  apply bind_ok_inv in E. destruct E as [c [Ez E]].
  apply at_index_inv in Ez. exists xi, yi, zi, c. auto.
Qed.

Lemma plot_keeps_shape (height width : Z) (b : Bounds)
    (lines lines' : list (list ascii)) (body : Body) :
  plot height width b lines body = Ok lines' ->
  grid_shape height width lines -> grid_shape height width lines'.
Proof.
  intros E [HL HF]. apply plot_inv in E.
  destruct E as [xi [yi [zi [c [_ [_ E]]]]]].
  apply write_cell_inv in E. destruct E as [EL [EF _]].
  split; [congruence | now apply EF].
Qed.

(** Bodies that map elsewhere leave a cell as it is. *)
Lemma plots_leave_cell (height width : Z) (b : Bounds) (xi yi : Z)
    (rest : list Body) :
  (0 <= xi)%Z -> (0 <= yi)%Z ->
  (forall later zj, In later rest ->
                    body_cell height width b later <> Ok (xi, yi, zj)) ->
  forall lines lines',
    foldM (plot height width b) rest lines = Ok lines' ->
    grid_cell lines' (Z.to_nat yi) (Z.to_nat xi)
    = grid_cell lines (Z.to_nat yi) (Z.to_nat xi).
Proof.
  intros Hx Hy. induction rest as [| body rest IH]; intros Hfree lines lines' E;
    simpl in E.
  - now injection E as <-.
  - apply bind_ok_inv in E. destruct E as [lines1 [E1 E2]].
    rewrite (IH (fun later zj Hin => Hfree later zj (or_intror Hin)) _ _ E2).
    apply plot_inv in E1. destruct E1 as [xj [yj [zj [c [Ec [_ Ew]]]]]].
    apply write_cell_inv in Ew. destruct Ew as [_ [_ [_ Hother]]].
    apply Hother. intros Heq. injection Heq as Hr Hk.
    destruct (body_cell_nonneg _ _ _ _ _ _ _ Ec) as [Nx [Ny _]].
    apply (Hfree body zj (or_introl eq_refl)).
    rewrite Ec. repeat f_equal; lia.
Qed.

(** The cell of a body shows its character when no later body maps there. *)
Lemma plots_show_last (height width : Z) (b : Bounds) (bodies0 : list Body) :
  forall lines lines' i body xi yi zi,
    foldM (plot height width b) bodies0 lines = Ok lines' ->
    nth_error bodies0 i = Some body ->
    body_cell height width b body = Ok (xi, yi, zi) ->
    (forall j later zj, (i < j)%nat -> nth_error bodies0 j = Some later ->
                        body_cell height width b later <> Ok (xi, yi, zj)) ->
    exists c,
      nth_error z_characters (Z.to_nat zi) = Some c /\
      grid_cell lines' (Z.to_nat yi) (Z.to_nat xi) = Some c.
Proof.
  induction bodies0 as [| first rest IH];
    intros lines lines' i body xi yi zi E Hi Ec Hlast.
  - destruct i; discriminate.
  - simpl in E. apply bind_ok_inv in E. destruct E as [lines1 [E1 E2]].
    destruct i as [| i].
    + injection Hi as ->.
      apply plot_inv in E1. destruct E1 as [xj [yj [zj [c [Ec' [Hc Ew]]]]]].
      rewrite Ec in Ec'. injection Ec' as <- <- <-.
      apply write_cell_inv in Ew. destruct Ew as [_ [_ [Hcell _]]].
      destruct (body_cell_nonneg _ _ _ _ _ _ _ Ec) as [Nx [Ny _]].
      exists c. split; [exact Hc |].
      rewrite (plots_leave_cell height width b xi yi rest Nx Ny) with (lines := lines1);
        [exact Hcell | | exact E2].
      intros later zj Hin. apply In_nth_error in Hin. destruct Hin as [j Hj].
      apply (Hlast (S j) later zj); [lia | exact Hj].
    + apply (IH lines1 lines' i body xi yi zi E2 Hi Ec).
      intros j later zj Hlt Hj. apply (Hlast (S j) later zj); [lia | exact Hj].
Qed.

(** ** From the grid to the returned text *)

Lemma join_lines_from (lines : list (list ascii)) (output : list ascii) :
  fold_left (fun output line => output ++ line ++ [newline]) lines output
  = output ++ concat (map (fun line => line ++ [newline]) lines).
Proof.
  revert output. induction lines as [| line lines IH]; intros output; simpl.
  - now rewrite app_nil_r.
  - rewrite IH. now rewrite <- app_assoc.
Qed.

Lemma join_lines_concat (lines : list (list ascii)) :
  join_lines lines = concat (map (fun line => line ++ [newline]) lines).
Proof. unfold join_lines. now rewrite join_lines_from. Qed.

(** In the text, the character of line [r], column [k] stands at offset
    [r * (w + 1) + k] when every line has [w] characters. *)
Lemma join_lines_cell (w : nat) (lines : list (list ascii)) (r k : nat)
    (c : ascii) :
  Forall (fun line => length line = w) lines ->
  grid_cell lines r k = Some c ->
  nth_error (join_lines lines) (r * (w + 1) + k) = Some c.
Proof.
  rewrite join_lines_concat. intros HF. revert r.
  induction HF as [| line lines Hlen HF IH]; intros r Hc.
  - unfold grid_cell in Hc. destruct r; discriminate.
  - destruct r as [| r]; cbn [map concat].
    + unfold grid_cell in Hc. cbn [nth_error] in Hc.
      assert (k < length line)%nat by (apply nth_error_Some; congruence).
      cbn [Nat.mul Nat.add].
      rewrite nth_error_app1 by (rewrite length_app; lia).
      rewrite nth_error_app1 by lia. exact Hc.
    + rewrite nth_error_app2 by (rewrite length_app; cbn [length]; lia).
      rewrite length_app. cbn [length].
      replace (S r * (w + 1) + k - (length line + 1))%nat
        with (r * (w + 1) + k)%nat by lia.
      apply IH. exact Hc.
Qed.

(** C7.  When the renderer returns its text and several bodies map to one
    cell, the cell shows the palette character of the body of greatest
    index among them: for a body that maps to row [yi], column [xi] and
    palette entry [zi], and after which no body maps to the same row and
    column, the character of the text at that row and column is entry [zi]
    of the palette. *)
Theorem last_write_wins (height width : Z) (bodies0 : list Body)
    (output : list ascii) (i : nat) (body : Body) (xi yi zi : Z) :
  create_map_of_bodies height width bodies0 = Ok output ->
  nth_error bodies0 i = Some body ->
  body_cell height width (bounds_of bodies0) body = Ok (xi, yi, zi) ->
  (forall j later zj,
     (i < j)%nat -> nth_error bodies0 j = Some later ->
     body_cell height width (bounds_of bodies0) later <> Ok (xi, yi, zj)) ->
  exists c,
    nth_error z_characters (Z.to_nat zi) = Some c /\
    text_cell width output yi xi = Some c.
Proof.
  intros E Hi Ec Hlast. unfold create_map_of_bodies in E.
  apply bind_ok_inv in E. destruct E as [lines [El E]]. injection E as <-.
  unfold render_lines in El.
  destruct (plots_show_last _ _ _ _ _ _ _ _ _ _ _ El Hi Ec Hlast)
    as [c [Hc Hcell]].
  exists c. split; [exact Hc |].
  unfold text_cell. apply join_lines_cell; [| exact Hcell].
  apply (foldM_ok_preserves (grid_shape height width)) in El.
  - apply El.
  - intros a b a' Ep Hs. exact (plot_keeps_shape _ _ _ _ _ _ Ep Hs).
  - apply blank_lines_shape.
Qed.

(** ** A concrete rendering *)

Lemma DBL_MIN_lt_1 : DBL_MIN < 1.
Proof.
  unfold DBL_MIN.
  assert (H : 1 < 2 ^ 1022) by (apply Rlt_pow_R1; [lra | lia]).
  apply Rle_lt_trans with (/ 2 ^ 1022 * 1); [lra |].
  apply Rlt_le_trans with (/ 2 ^ 1022 * 2 ^ 1022);
    [apply Rmult_lt_compat_l; [apply Rinv_0_lt_compat; lra | exact H] |].
  rewrite Rinv_l; lra.
Qed.

(** Rounding an integer gives that integer. *)
Lemma c_round_IZR (n : Z) : (0 <= n)%Z -> c_round (IZR n) = n.
Proof.
  intros Hn. unfold c_round.
  destruct (Rle_dec 0 (IZR n)) as [_ | N]; [| elim N; now apply IZR_le].
  symmetry. apply Int_part_spec. lra.
Qed.

(** The body at the lowest bound gets index 0, the one at the highest bound
    the last index. *)
Lemma grid_index_lowest (lo hi : R) (cells : Z) :
  lo < hi -> (1 <= cells < UINT_SIZE)%Z -> grid_index lo lo hi cells = Ok 0%Z.
Proof.
  intros Hlt Hc. unfold grid_index. rewrite fdiv_ok by lra. cbn [bind].
  replace ((lo - lo) / (hi - lo) * IZR (uint_sub cells 1)) with (IZR 0)
    by (field; lra).
  rewrite c_round_IZR by lia. apply to_uint_ok. rewrite UINT_SIZE_eq. lia.
Qed.

Lemma grid_index_highest (lo hi : R) (cells : Z) :
  lo < hi -> (1 <= cells < UINT_SIZE)%Z ->
  grid_index hi lo hi cells = Ok (cells - 1)%Z.
Proof.
  intros Hlt Hc. unfold grid_index. rewrite fdiv_ok by lra. cbn [bind].
  assert (Es : uint_sub cells 1 = (cells - 1)%Z)
    by (unfold uint_sub; apply Z.mod_small; lia).
  rewrite Es.
  replace ((hi - lo) / (hi - lo) * IZR (cells - 1)) with (IZR (cells - 1))
    by (field; lra).
  rewrite c_round_IZR by lia. apply to_uint_ok. lia.
Qed.

(** Runs the comparisons of the first loop on concrete coordinates, the
    innermost one first. *)
Ltac run_comparisons :=
  repeat match goal with
         | |- context [raise ?h ?v] =>
             first [rewrite (raise_gt h v) by lra | rewrite (raise_le h v) by lra]
         | |- context [lower ?l ?v] =>
             first [rewrite (lower_lt l v) by lra | rewrite (lower_ge l v) by lra]
         end.

Lemma bounds_of_corner_bodies :
  bounds_of corner_bodies = mkBounds 1 1 1 0 0 0.
Proof.
  pose proof DBL_MIN_pos as Hmin. pose proof DBL_MIN_lt_1 as Hmin1.
  pose proof DBL_MAX_ge_1 as Hmax.
  rewrite bounds_of_spec. unfold corner_bodies.
  cbn [map fold_left x y z]. run_comparisons. reflexivity.
Qed.

Lemma corner_bodies_cells :
  body_cell 2 2 (bounds_of corner_bodies) (mkBody 0 0 0 0 0 0 1)
    = Ok (0, 0, 0)%Z /\
  body_cell 2 2 (bounds_of corner_bodies) (mkBody 0 0 1 0 0 0 1)
    = Ok (0, 0, 15)%Z.
Proof.
  rewrite bounds_of_corner_bodies. unfold body_cell.
  cbn [x y z highest_x highest_y highest_z lowest_x lowest_y lowest_z].
  assert (H2 : (1 <= 2 < UINT_SIZE)%Z) by (rewrite UINT_SIZE_eq; lia).
  assert (H16 : (1 <= z_size < UINT_SIZE)%Z)
    by (rewrite UINT_SIZE_eq, z_size_eq; lia).
  rewrite (grid_index_lowest 0 1 2) by (lra || exact H2).
  rewrite (grid_index_lowest 0 1 z_size) by (lra || exact H16).
  rewrite (grid_index_highest 0 1 z_size) by (lra || exact H16).
  cbn [bind]. split; reflexivity.
Qed.

Lemma corner_bodies_extent :
  lowest_x (bounds_of corner_bodies) < highest_x (bounds_of corner_bodies) /\
  lowest_y (bounds_of corner_bodies) < highest_y (bounds_of corner_bodies) /\
  lowest_z (bounds_of corner_bodies) < highest_z (bounds_of corner_bodies).
Proof.
  rewrite bounds_of_corner_bodies.
  cbn [highest_x highest_y highest_z lowest_x lowest_y lowest_z].
  repeat split; lra.
Defined.

Lemma two_in_uint : (1 <= 2 < UINT_SIZE)%Z.
Proof. rewrite UINT_SIZE_eq. lia. Defined.

Lemma corner_bodies_rendered :
  exists output, create_map_of_bodies 2 2 corner_bodies = Ok output.
Proof.
  destruct corner_bodies_extent as [Ex [Ey Ez]].
  destruct (render_lines_total 2 2 corner_bodies two_in_uint two_in_uint
              Ex Ey Ez) as [lines [E _]].
  exists (join_lines lines). unfold create_map_of_bodies. now rewrite E.
Defined.

(** The first and the third of the corner bodies map to the cell (0, 0);
    the text shows the character of the third, the last palette entry. *)
Lemma last_write_wins_witness :
  exists output,
    create_map_of_bodies 2 2 corner_bodies = Ok output /\
    text_cell 2 output 0 0 = Some "@"%char.
Proof.
  destruct corner_bodies_rendered as [output E].
  exists output. split; [exact E |].
  destruct (last_write_wins 2 2 corner_bodies output 2
              (mkBody 0 0 1 0 0 0 1) 0 0 15 E eq_refl
              (proj2 corner_bodies_cells)) as [c [Hc Ht]].
  - intros j later zj Hlt Hj.
    destruct j as [| [| [| j]]]; try lia. destruct j; discriminate Hj.
  - cbn in Hc. injection Hc as <-. exact Ht.
Defined.


(** ** The text depends on the arguments only *)

Lemma stateless_ret {A : Type} (a : A) : stateless (retP a) (Ok a).
Proof. intros p. reflexivity. Qed.

Lemma stateless_lift {A : Type} (r : result A) : stateless (liftP r) r.
Proof. intros p. reflexivity. Qed.

Lemma stateless_bind {A B : Type} (c : Prog A) (r : result A)
    (k : A -> Prog B) (k' : A -> result B) :
  stateless c r -> (forall a, stateless (k a) (k' a)) ->
  stateless (bindP c k) (bind r k').
Proof.
  intros Hc Hk p. unfold bindP. rewrite (Hc p).
  destruct r as [a | f]; simpl; [apply Hk | reflexivity].
Qed.

Lemma stateless_for {A I : Type} (f : A -> I -> Prog A)
    (f' : A -> I -> result A) (l : list I) :
  (forall a i, stateless (f a i) (f' a i)) ->
  forall a, stateless (forP f l a) (foldM f' l a).
Proof.
  intros Hf. induction l as [| i l IH]; intros a; cbn [forP foldM].
  - apply stateless_ret.
  - apply stateless_bind; [apply Hf | exact IH].
Qed.

Lemma foldM_of_total {A I : Type} (g : A -> I -> A) (l : list I) (a : A) :
  foldM (fun a i => Ok (g a i)) l a = Ok (fold_left g l a).
Proof.
  revert a. induction l as [| i l IH]; intros a; simpl; [reflexivity | apply IH].
Qed.

(** The body of the second loop, run in the process, is the body of the
    loop on local values. *)
Lemma plot_in_process (height width : Z) (b : Bounds)
    (lines : list (list ascii)) (body : Body) :
  stateless
    (x <~ liftP (grid_index (x body) (lowest_x b) (highest_x b) width) ;;
     y <~ liftP (grid_index (y body) (lowest_y b) (highest_y b) height) ;;
     z <~ liftP (grid_index (z body) (lowest_z b) (highest_z b)
                   (Z.of_nat (length z_characters))) ;;
     c <~ liftP (at_index z_characters (Z.to_nat z)) ;;
     liftP (write_cell lines y x c))
    (plot height width b lines body).
Proof.
  intros p. unfold plot, body_cell, bindP, liftP. fold z_size.
  destruct (grid_index (x body) (lowest_x b) (highest_x b) width);
    [| reflexivity]. cbn [bind].
  destruct (grid_index (y body) (lowest_y b) (highest_y b) height);
    [| reflexivity]. cbn [bind].
  destruct (grid_index (z body) (lowest_z b) (highest_z b) z_size);
    [| reflexivity]. cbn [bind].
  destruct (at_index z_characters (Z.to_nat a1)); [| reflexivity]. cbn [bind].
  destruct (write_cell lines a0 a a2); reflexivity.
Qed.

(** The renderer run in the process returns, in every state of the process,
    what the renderer computes from its three arguments, and leaves the
    state. *)
Lemma create_map_stateless (height width : Z) (bodies0 : list Body) :
  stateless (create_map_of_bodies_in_process height width bodies0)
            (create_map_of_bodies height width bodies0).
Proof.
  assert (E : create_map_of_bodies height width bodies0 =
              bind (foldM (fun b body => Ok (bounds_step b body)) bodies0
                          initial_bounds)
                (fun b =>
                   bind (foldM (plot height width b) bodies0
                               (blank_lines height width))
                     (fun lines =>
                        foldM (fun output line =>
                                 Ok (output ++ line ++ [newline])) lines []))).
  { rewrite foldM_of_total. cbn [bind].
    unfold create_map_of_bodies, render_lines. fold (bounds_of bodies0).
    destruct (foldM (plot height width (bounds_of bodies0)) bodies0
                (blank_lines height width)) as [lines |]; cbn [bind];
      [| reflexivity].
    now rewrite foldM_of_total. }
  rewrite E. unfold create_map_of_bodies_in_process.
  apply stateless_bind.
  - apply stateless_for. intros b body. apply stateless_ret.
  - intros b. cbv zeta. apply stateless_bind.
    + apply stateless_for. intros lines body. apply plot_in_process.
    + intros lines. apply stateless_for. intros output line.
      apply stateless_ret.
Qed.

(** A function that calls [rand()] is not of this kind: the call changes
    the state of the process. *)
Lemma rand_call_is_not_stateless (rand_source : nat -> Z) :
  ~ exists r, stateless (rand_call rand_source) r.
Proof.
  intros [r H]. specialize (H (mkProcess 0 [])).
  unfold rand_call, liftP in H. cbn [rand_state console] in H.
  destruct r as [a | f]; [| discriminate]. injection H as _ H. discriminate.
Qed.



(** ** Initialisation *)

Section InitialisationBounds.

Variable RAND_MAX : Z.
Variable rand_source : nat -> Z.

(** What the C standard says of [RAND_MAX] and of [rand()]. *)
Hypothesis RAND_MAX_pos : (0 < RAND_MAX)%Z.
Hypothesis rand_range : forall k, (0 <= rand_source k <= RAND_MAX)%Z.

Lemma rand01double_range (s s' : nat) (v : R) :
  rand01double RAND_MAX rand_source s = (v, s') -> 0 <= v <= 1.
Proof.
  unfold rand01double, rand. intros E. injection E as <- _.
  destruct (rand_range s) as [H0 H1].
  apply IZR_le in H0, H1. apply IZR_lt in RAND_MAX_pos.
  assert (Hinv : 0 < / IZR RAND_MAX) by now apply Rinv_0_lt_compat.
  assert (E1 : IZR RAND_MAX * / IZR RAND_MAX = 1) by (apply Rinv_r; lra).
  unfold Rdiv. split; nra.
Qed.

Lemma randndouble_range (n s s' : nat) (v : R) :
  randndouble RAND_MAX rand_source n s = (v, s') ->
  - INR n <= v <= INR n.
Proof.
  unfold randndouble, randn1to1double. intros E.
  destruct (rand01double RAND_MAX rand_source s) as [u s1] eqn:Eu.
  injection E as <- _.
  pose proof (rand01double_range _ _ _ Eu) as Hu.
  pose proof (pos_INR n) as Hn. split; nra.
Qed.

Lemma init_body_range (n s s' : nat) (body : Body) :
  init_body RAND_MAX rand_source n s = (body, s') ->
  position_within (INR n) body /\ velocity_within_unit body /\
  0 <= mass body <= 1.
Proof.
  unfold init_body. intros E.
  destruct (randndouble RAND_MAX rand_source n s) as [bx s1] eqn:E1.
  destruct (randndouble RAND_MAX rand_source n s1) as [by_ s2] eqn:E2.
  destruct (randndouble RAND_MAX rand_source n s2) as [bz s3] eqn:E3.
  destruct (rand01double RAND_MAX rand_source s3) as [bvx s4] eqn:E4.
  destruct (rand01double RAND_MAX rand_source s4) as [bvy s5] eqn:E5.
  destruct (rand01double RAND_MAX rand_source s5) as [bvz s6] eqn:E6.
  destruct (rand01double RAND_MAX rand_source s6) as [bm s7] eqn:E7.
  injection E as <- _.
  unfold position_within, velocity_within_unit. cbn [x y z vx vy vz mass].
  pose proof (randndouble_range _ _ _ _ E1).
  pose proof (randndouble_range _ _ _ _ E2).
  pose proof (randndouble_range _ _ _ _ E3).
  pose proof (rand01double_range _ _ _ E4).
  pose proof (rand01double_range _ _ _ E5).
  pose proof (rand01double_range _ _ _ E6).
  pose proof (rand01double_range _ _ _ E7).
  tauto.
Qed.

Lemma init_loop_range (n count s s' : nat) (l : list Body) :
  init_loop RAND_MAX rand_source n count s = (l, s') ->
  length l = count /\
  forall body, In body l ->
    position_within (INR n) body /\ velocity_within_unit body /\
    0 <= mass body <= 1.
Proof.
  revert s s' l. induction count as [| count IH]; intros s s' l E;
    cbn [init_loop] in E.
  - injection E as <- _. split; [reflexivity | intros body []].
  - destruct (init_body RAND_MAX rand_source n s) as [body s1] eqn:Eb.
    destruct (init_loop RAND_MAX rand_source n count s1) as [rest s2] eqn:Er.
    injection E as <- _.
    destruct (IH _ _ _ Er) as [HL HR].
    split; [simpl; now rewrite HL |].
    intros b [<- | Hin]; [exact (init_body_range _ _ _ _ Eb) | now apply HR].
Qed.

(** C3, as the code has it.  Whatever the random source returns within
    [[0, RAND_MAX]], the [n] bodies of the initialisation have every
    position component in [[-n, n]], every velocity component in [[0, 1]]
    and a mass in the closed interval [[0, 1]]. *)
Theorem initialize_bounds (n : nat) :
  length (initialize RAND_MAX rand_source n) = n /\
  forall body, In body (initialize RAND_MAX rand_source n) ->
    position_within (INR n) body /\ velocity_within_unit body /\
    0 <= mass body <= 1.
Proof.
  unfold initialize.
  destruct (init_loop RAND_MAX rand_source n n O) as [l s'] eqn:E.
  exact (init_loop_range _ _ _ _ _ E).
Qed.

End InitialisationBounds.

Lemma zero_source_range : forall k, (0 <= zero_source k <= 32767)%Z.
Proof. intros k. unfold zero_source. lia. Defined.

(** C3, as stated, fails: a random source within its range, here the one
    that returns 0, gives the body a mass of exactly 0, which is not in the
    half-open interval. *)
Lemma initialize_zero_mass :
  (forall k, (0 <= zero_source k <= 32767)%Z) /\
  exists body,
    In body (initialize 32767 zero_source 1) /\
    mass body = 0 /\ ~ (0 < mass body <= 1).
Proof.
  split; [exact zero_source_range |].
  eexists. split; [left; reflexivity |].
  cbn [mass]. unfold zero_source. split; lra.
Qed.

(** One body drawn from the source that always returns 0, with
    [RAND_MAX = 32767]. *)
Lemma initialize_bounds_witness :
  length (initialize 32767 zero_source 1) = 1%nat /\
  forall body, In body (initialize 32767 zero_source 1) ->
    position_within (INR 1) body /\ velocity_within_unit body /\
    0 <= mass body <= 1.
Proof.
  apply (initialize_bounds 32767 zero_source); [lia | exact zero_source_range].
Defined.

(** ** The pairs the two loops visit *)

Lemma foldM_app {A I : Type} (f : A -> I -> result A) (l1 l2 : list I) (a : A) :
  foldM f (l1 ++ l2) a = bind (foldM f l1 a) (foldM f l2).
Proof.
  revert a. induction l1 as [| i l1 IH]; intros a; simpl; [reflexivity |].
  destruct (f a i) as [a' | flt]; simpl; [apply IH | reflexivity].
Qed.

Lemma foldM_map {A I J : Type} (f : A -> J -> result A) (g : I -> J)
    (l : list I) (a : A) :
  foldM f (map g l) a = foldM (fun a i => f a (g i)) l a.
Proof.
  revert a. induction l as [| i l IH]; intros a; simpl; [reflexivity |].
  destruct (f a (g i)) as [a' | flt]; simpl; [apply IH | reflexivity].
Qed.

Lemma foldM_flat_map {A I J : Type} (f : A -> J -> result A)
    (g : I -> list J) (l : list I) (a : A) :
  foldM f (flat_map g l) a = foldM (fun a i => foldM f (g i) a) l a.
Proof.
  revert a. induction l as [| i l IH]; intros a; simpl; [reflexivity |].
  rewrite foldM_app.
  destruct (foldM f (g i) a) as [a' | flt]; simpl; [apply IH | reflexivity].
Qed.

Lemma foldM_ext {A I : Type} (f g : A -> I -> result A) (l : list I) (a : A) :
  (forall a i, f a i = g a i) -> foldM f l a = foldM g l a.
Proof.
  intros H. revert a. induction l as [| i l IH]; intros a; simpl; [reflexivity |].
  rewrite H. destruct (g a i) as [a' | flt]; simpl; [apply IH | reflexivity].
Qed.

(** The velocity update is one loop over the visited pairs. *)
Lemma update_velocities_pairs (G : R) (bodies0 : list Body) :
  update_velocities G bodies0 =
  foldM (fun live p => pair_update G bodies0 live (fst p) (snd p))
        (visited_pairs (length bodies0)) bodies0.
Proof.
  unfold update_velocities, visited_pairs, inner_loop.
  rewrite foldM_flat_map. apply foldM_ext.
  intros live i1. now rewrite foldM_map.
Qed.

(** Every unordered pair of distinct indices is visited, as [(i, j)] with
    [i < j], and no pair is visited twice. *)
Lemma visited_pairs_spec (n i j : nat) :
  In (i, j) (visited_pairs n) <-> (i < j < n)%nat.
Proof.
  unfold visited_pairs. rewrite in_flat_map. split.
  - intros [i1 [H1 H2]]. apply in_map_iff in H2.
    destruct H2 as [i2 [E H2]]. injection E as -> ->.
    apply in_seq in H1, H2. lia.
  - intros H. exists i. split; [apply in_seq; lia |].
    apply in_map. apply in_seq. lia.
Qed.

Lemma visited_pairs_NoDup (n : nat) : NoDup (visited_pairs n).
Proof.
  unfold visited_pairs.
  generalize (seq_NoDup (n - 1) 0). generalize (seq 0 (n - 1)) as l.
  induction l as [| i1 l IH]; intros Hnd; simpl; [constructor |].
  inversion Hnd as [| ? ? Hnotin Hnd']; subst.
  apply NoDup_app.
  - apply NoDup_map_NoDup_ForallPairs; [| apply seq_NoDup].
    intros a b _ _ E. now injection E.
  - now apply IH.
  - intros [a b] Ha Hb. apply in_map_iff in Ha. destruct Ha as [i2 [E _]].
    injection E as <- _.
    apply in_flat_map in Hb. destruct Hb as [i1' [Hin Hb]].
    apply in_map_iff in Hb. destruct Hb as [i2' [E _]]. injection E as -> _.
    contradiction.
Qed.


(** * Further properties of the code *)

(** ** [magnitude] and [distance] *)

Lemma magnitude_sqr (a b c : R) :
  magnitude a b c * magnitude a b c = a * a + b * b + c * c.
Proof. unfold magnitude. apply sqrt_sqrt. apply sum_squares_nonneg. Qed.

(** The inner product of two vectors is at most the product of their
    lengths. *)
Lemma dot_le_magnitudes (a b c a' b' c' : R) :
  a * a' + b * b' + c * c' <= magnitude a b c * magnitude a' b' c'.
Proof.
  set (U := a * a + b * b + c * c). set (V := a' * a' + b' * b' + c' * c').
  set (d := a * a' + b * b' + c * c').
  assert (HU : 0 <= U) by apply sum_squares_nonneg.
  assert (HV : 0 <= V) by apply sum_squares_nonneg.
  unfold magnitude. fold U V. rewrite <- sqrt_mult by assumption.
  apply Rle_trans with (Rabs d); [apply Rle_abs |].
  rewrite <- sqrt_Rsqr_abs. apply sqrt_le_1_alt.
  assert (E : U * V - Rsqr d =
              (a * b' - b * a') * (a * b' - b * a')
              + (a * c' - c * a') * (a * c' - c * a')
              + (b * c' - c * b') * (b * c' - c * b'))
    by (unfold U, V, d, Rsqr; ring).
  pose proof (sum_squares_nonneg (a * b' - b * a') (a * c' - c * a')
                (b * c' - c * b')) as Hs.
  lra.
Qed.

Lemma magnitude_triangle (a b c a' b' c' : R) :
  magnitude (a + a') (b + b') (c + c')
  <= magnitude a b c + magnitude a' b' c'.
Proof.
  pose proof (magnitude_nonneg a b c) as H1.
  pose proof (magnitude_nonneg a' b' c') as H2.
  pose proof (magnitude_nonneg (a + a') (b + b') (c + c')) as H3.
  pose proof (magnitude_sqr a b c) as S1.
  pose proof (magnitude_sqr a' b' c') as S2.
  pose proof (magnitude_sqr (a + a') (b + b') (c + c')) as S3.
  pose proof (dot_le_magnitudes a b c a' b' c') as Hd.
  apply Rsqr_incr_0_var; [| lra]. unfold Rsqr. nra.
Qed.

(** X1.  [distance] is a metric on the points of space: it is never
    negative, it is 0 exactly for two equal points, it does not depend on
    the order of the two points, and it satisfies the triangle
    inequality. *)
Theorem distance_is_metric (x1 y1 z1 x2 y2 z2 x3 y3 z3 : R) :
  0 <= distance x1 y1 z1 x2 y2 z2 /\
  (distance x1 y1 z1 x2 y2 z2 = 0 <-> x1 = x2 /\ y1 = y2 /\ z1 = z2) /\
  distance x1 y1 z1 x2 y2 z2 = distance x2 y2 z2 x1 y1 z1 /\
  distance x1 y1 z1 x3 y3 z3
  <= distance x1 y1 z1 x2 y2 z2 + distance x2 y2 z2 x3 y3 z3.
Proof.
  unfold distance. split; [apply magnitude_nonneg |]. split; [| split].
  - rewrite magnitude_zero_iff. split; intros [A [B C]]; repeat split; lra.
  - rewrite <- magnitude_opp. f_equal; ring.
  - replace (x1 - x3) with ((x1 - x2) + (x2 - x3)) by ring.
    replace (y1 - y3) with ((y1 - y2) + (y2 - y3)) by ring.
    replace (z1 - z3) with ((z1 - z2) + (z2 - z3)) by ring.
    apply magnitude_triangle.
Qed.

(** ** [newton_law_of_universal_gravitation] *)

(** X2.  The force function fails exactly when the distance is 0, and with
    a division by zero; for any other distance it returns
    [G * (m1 * m2 / d)], which does not change when the two masses are
    exchanged and is proportional to each mass and to [G]. *)
Theorem newton_law_behaviour (G m1 m2 d : R) :
  (d = 0 <->
   newton_law_of_universal_gravitation G m1 m2 d = Fault DivByZero) /\
  (d <> 0 <->
   newton_law_of_universal_gravitation G m1 m2 d = Ok (G * (m1 * m2 / d))) /\
  newton_law_of_universal_gravitation G m1 m2 d
    = newton_law_of_universal_gravitation G m2 m1 d /\
  forall k f,
    newton_law_of_universal_gravitation G m1 m2 d = Ok f ->
    newton_law_of_universal_gravitation G (k * m1) m2 d = Ok (k * f) /\
    newton_law_of_universal_gravitation (k * G) m1 m2 d = Ok (k * f).
Proof.
  unfold newton_law_of_universal_gravitation.
  destruct (fdiv_cases (m1 * m2) d) as [[Hd E] | [Hd E]].
  - rewrite E. cbn [bind]. split; [| split; [| split]].
    + split; [contradiction | discriminate].
    + split; [reflexivity | intros _; exact Hd].
    + rewrite (fdiv_ok _ d Hd). cbn [bind]. f_equal. field. exact Hd.
    + intros k f Ef. injection Ef as <-.
      rewrite (fdiv_ok _ d Hd). cbn [bind].
      split; f_equal; field; exact Hd.
  - rewrite E. cbn [bind]. subst d. split; [| split; [| split]].
    + split; reflexivity.
    + split; [intros N; now elim N | discriminate].
    + now rewrite fdiv_zero.
    + intros k f Ef. discriminate.
Qed.

(** ** The velocity update, whenever it returns *)

Lemma fdiv_ok_inv (a b q : R) : fdiv a b = Ok q -> b <> 0 /\ q = a / b.
Proof.
  intros E. destruct (fdiv_cases a b) as [[Hb E'] | [_ E']];
    rewrite E' in E; [| discriminate].
  injection E as <-. auto.
Qed.

(** A loop that returned went through each of its rounds, from a state that
    satisfies what the rounds keep. *)
Lemma foldM_ok_steps {A I : Type} (P : A -> Prop) (f : A -> I -> result A)
    (l : list I) :
  (forall a i a', In i l -> P a -> f a i = Ok a' -> P a') ->
  forall a a', P a -> foldM f l a = Ok a' ->
    P a' /\ forall i, In i l -> exists s s', P s /\ f s i = Ok s'.
Proof.
  induction l as [| i l IH]; intros Hstep a a' Ha E; simpl in E.
  - injection E as <-. split; [exact Ha | intros i []].
  - apply bind_ok_inv in E. destruct E as [a1 [E1 E2]].
    assert (Ha1 : P a1) by (apply (Hstep a i a1); simpl; auto).
    destruct (IH (fun a0 j a0' Hj => Hstep a0 j a0' (or_intror Hj)) a1 a' Ha1 E2)
      as [Ha' Hall].
    split; [exact Ha' |].
    intros j [<- | Hj]; [exists a, a1; auto | now apply Hall].
Qed.

(** A round of the inner loop that returned divided by no zero: the two
    bodies were apart and both masses were not 0. *)
Lemma pair_update_ok_inv (G : R) (bodies_old live live' : list Body)
    (i1 i2 : nat) :
  i1 <> i2 -> pair_update G bodies_old live i1 i2 = Ok live' ->
  exists o1 o2 b1 b2,
    nth_error bodies_old i1 = Some o1 /\ nth_error bodies_old i2 = Some o2 /\
    nth_error live i1 = Some b1 /\ nth_error live i2 = Some b2 /\
    body_distance o1 o2 <> 0 /\ mass b1 <> 0 /\ mass b2 <> 0.
Proof.
  intros Hne E. unfold pair_update in E.
  apply bind_ok_inv in E. destruct E as [o1 [Ho1 E]].
  apply bind_ok_inv in E. destruct E as [o2 [Ho2 E]].
  apply bind_ok_inv in E. destruct E as [force [Hf E]].
  apply bind_ok_inv in E. destruct E as [xn [_ E]].
  apply bind_ok_inv in E. destruct E as [yn [_ E]].
  apply bind_ok_inv in E. destruct E as [zn [_ E]].
  apply bind_ok_inv in E. destruct E as [b1 [Hb1 E]].
  apply bind_ok_inv in E. destruct E as [ax1 [Hm1 E]].
  apply bind_ok_inv in E. destruct E as [ay1 [_ E]].
  apply bind_ok_inv in E. destruct E as [az1 [_ E]].
  apply bind_ok_inv in E. destruct E as [b2 [Hb2 E]].
  apply bind_ok_inv in E. destruct E as [ax2 [Hm2 E]].
  apply at_index_inv in Ho1, Ho2, Hb1, Hb2.
  rewrite nth_error_set_at_other in Hb2 by exact Hne.
  unfold newton_law_of_universal_gravitation in Hf.
  apply bind_ok_inv in Hf. destruct Hf as [q [Hq _]].
  apply fdiv_ok_inv in Hq, Hm1, Hm2.
  exists o1, o2, b1, b2. repeat split; try assumption;
    [apply Hq | apply Hm1 | apply Hm2].
Qed.

(** What one round keeps in every case: places, masses and the three
    momenta of the live array. *)
Lemma pair_update_frame (G : R) (bodies_old live live' : list Body)
    (i1 i2 : nat) :
  i1 <> i2 -> pair_update G bodies_old live i1 i2 = Ok live' ->
  map place_and_mass live' = map place_and_mass live /\
  momentum_x live' = momentum_x live /\
  momentum_y live' = momentum_y live /\
  momentum_z live' = momentum_z live.
Proof.
  intros Hne E.
  destruct (pair_update_ok_inv G bodies_old live live' i1 i2 Hne E)
    as [o1 [o2 [b1 [b2 [Ho1 [Ho2 [Hb1 [Hb2 [Hd [N1 N2]]]]]]]]]].
  pose proof (pair_update_result G bodies_old live i1 i2 o1 o2 b1 b2
                Hne Ho1 Ho2 Hb1 Hb2 Hd N1 N2) as R.
  cbv zeta in R. rewrite R in E. injection E as <-.
  set (b1' := add_velocity b1 _ _ _).
  set (b2' := add_velocity b2 _ _ _).
  assert (Hb2' : nth_error (set_at i1 b1' live) i2 = Some b2)
    by (rewrite nth_error_set_at_other; auto).
  unfold momentum_x, momentum_y, momentum_z.
  rewrite !(sum_over_set_at _ i2 b2' b2 _ Hb2').
  rewrite !(sum_over_set_at _ i1 b1' b1 _ Hb1).
  rewrite (map_set_at place_and_mass i2 b2' b2 _ Hb2' eq_refl).
  rewrite (map_set_at place_and_mass i1 b1' b1 _ Hb1 eq_refl).
  repeat split; unfold b1', b2'; cbn [add_velocity mass vx vy vz];
    field; auto.
Qed.

Lemma update_velocities_keeps (G : R) (bodies0 bodies1 : list Body) :
  update_velocities G bodies0 = Ok bodies1 ->
  map place_and_mass bodies1 = map place_and_mass bodies0 /\
  length bodies1 = length bodies0 /\
  momentum_x bodies1 = momentum_x bodies0 /\
  momentum_y bodies1 = momentum_y bodies0 /\
  momentum_z bodies1 = momentum_z bodies0.
Proof.
  intros E. rewrite update_velocities_pairs in E.
  destruct (foldM_ok_steps
              (fun live => map place_and_mass live = map place_and_mass bodies0 /\
                           momentum_x live = momentum_x bodies0 /\
                           momentum_y live = momentum_y bodies0 /\
                           momentum_z live = momentum_z bodies0)
              (fun live p => pair_update G bodies0 live (fst p) (snd p))
              (visited_pairs (length bodies0)))
    with (a := bodies0) (a' := bodies1) as [[Hp [Mx [My Mz]]] _].
  - intros live [i1 i2] live' Hin [Hp [Mx [My Mz]]] Es.
    apply visited_pairs_spec in Hin. cbn [fst snd] in Es.
    destruct (pair_update_frame G bodies0 live live' i1 i2) as [Fp [Fx [Fy Fz]]];
      [lia | exact Es |].
    repeat split; congruence.
  - repeat split; reflexivity.
  - exact E.
  - repeat split; try assumption.
    rewrite <- (length_map place_and_mass bodies1), Hp. apply length_map.
Qed.

(** X3.  Whenever the velocity update returns, whatever the masses and the
    positions were, it has moved no body and changed no mass (so the number
    of bodies is the same), and the total momentum is what it was in each
    component. *)
Theorem velocity_update_frame (G : R) (bodies0 bodies1 : list Body) :
  update_velocities G bodies0 = Ok bodies1 ->
  map place_and_mass bodies1 = map place_and_mass bodies0 /\
  length bodies1 = length bodies0 /\
  momentum_x bodies1 = momentum_x bodies0 /\
  momentum_y bodies1 = momentum_y bodies0 /\
  momentum_z bodies1 = momentum_z bodies0.
Proof. apply update_velocities_keeps. Qed.

(** ** When the velocity update returns, and how it fails *)

Lemma same_at {A B : Type} (f : A -> B) (l l' : list A) (i : nat) (a : A) :
  map f l' = map f l -> nth_error l i = Some a ->
  exists a', nth_error l' i = Some a' /\ f a' = f a.
Proof.
  intros Hm Ha.
  pose proof (map_nth_error f _ _ Ha) as Hfa. rewrite <- Hm in Hfa.
  destruct (nth_error l' i) as [a' |] eqn:E.
  - exists a'. split; [reflexivity |].
    rewrite (map_nth_error f _ _ E) in Hfa. congruence.
  - apply nth_error_None in E.
    assert (i < length (map f l'))%nat by (apply nth_error_Some; congruence).
    rewrite length_map in *. lia.
Qed.

(** With no mass equal to 0 and no two bodies at one place, the update
    returns. *)
Lemma update_velocities_returns (G : R) (bodies0 : list Body) :
  (forall b, In b bodies0 -> mass b <> 0) -> distinct_positions bodies0 ->
  exists bodies1, update_velocities G bodies0 = Ok bodies1.
Proof.
  intros Hmass Hpos. rewrite update_velocities_pairs.
  destruct (foldM_invariant
              (fun live => map place_and_mass live = map place_and_mass bodies0)
              (fun live p => pair_update G bodies0 live (fst p) (snd p))
              (visited_pairs (length bodies0))) with (a := bodies0)
    as [bodies1 [E _]]; [| reflexivity | now exists bodies1].
  intros live [i1 i2] Hin Hinv. apply visited_pairs_spec in Hin.
  cbn [fst snd].
  destruct (at_index_lt bodies0 i1) as [o1 [Ho1 _]]; [lia |].
  destruct (at_index_lt bodies0 i2) as [o2 [Ho2 _]]; [lia |].
  destruct (same_at place_and_mass _ _ _ _ Hinv Ho1) as [b1 [Hb1 E1]].
  destruct (same_at place_and_mass _ _ _ _ Hinv Ho2) as [b2 [Hb2 E2]].
  assert (Hne : i1 <> i2) by lia.
  assert (M1 : mass b1 = mass o1) by (unfold place_and_mass in E1; congruence).
  assert (M2 : mass b2 = mass o2) by (unfold place_and_mass in E2; congruence).
  pose proof (Hmass o1 (nth_error_In _ _ Ho1)) as Q1.
  pose proof (Hmass o2 (nth_error_In _ _ Ho2)) as Q2.
  assert (Hd : body_distance o1 o2 <> 0).
  { intros Ed. apply body_distance_zero_iff in Ed.
    exact (Hpos i1 i2 o1 o2 Hne Ho1 Ho2 Ed). }
  eexists. split.
  - apply (pair_update_result G bodies0 live i1 i2 o1 o2 b1 b2); auto;
      congruence.
  - cbv zeta.
    rewrite (map_set_at place_and_mass i2 _ b2);
      [| rewrite nth_error_set_at_other; auto | reflexivity].
    rewrite (map_set_at place_and_mass i1 _ b1); [exact Hinv | exact Hb1 | reflexivity].
Qed.

Lemma update_velocities_ok_or_div (G : R) (bodies0 : list Body) :
  ok_or_div (fun bodies1 => length bodies1 = length bodies0)
            (update_velocities G bodies0).
Proof.
  unfold update_velocities. apply ok_or_div_foldM; [| reflexivity].
  intros live i1 Hin HL. apply in_seq in Hin. unfold inner_loop.
  apply ok_or_div_foldM; [| exact HL].
  intros live' i2 Hin2 HL'. apply in_seq in Hin2.
  apply pair_update_ok_or_div; auto; lia.
Qed.

(** X4.  The two loops never read or write outside the array and convert
    no number: the velocity update either returns as many bodies as it was
    given, or stops on a division by zero, and on nothing else. *)
Theorem velocity_update_only_divides_by_zero (G : R) (bodies0 : list Body) :
  (exists bodies1,
     update_velocities G bodies0 = Ok bodies1 /\
     length bodies1 = length bodies0) \/
  update_velocities G bodies0 = Fault DivByZero.
Proof.
  pose proof (update_velocities_ok_or_div G bodies0) as H.
  destruct (update_velocities G bodies0) as [bodies1 | f]; simpl in H.
  - left. exists bodies1. auto.
  - right. now rewrite H.
Qed.

(** X5.  For two bodies or more, whenever the velocity update returns (it
    divided by no zero), no mass is 0 and no two bodies are at the same
    position: every body went through a round with another one, and every
    pair through its own round. *)
Theorem velocity_update_returns_only_if (G : R) (bodies0 bodies1 : list Body) :
  (2 <= length bodies0)%nat ->
  update_velocities G bodies0 = Ok bodies1 ->
  (forall b, In b bodies0 -> mass b <> 0) /\ distinct_positions bodies0.
Proof.
  intros Hlen E. rewrite update_velocities_pairs in E.
  destruct (foldM_ok_steps
              (fun live => map place_and_mass live = map place_and_mass bodies0)
              (fun live p => pair_update G bodies0 live (fst p) (snd p))
              (visited_pairs (length bodies0)))
    with (a := bodies0) (a' := bodies1) as [_ Hsteps]; [| reflexivity | exact E |].
  { intros live [i1 i2] live' Hin Hinv Es. apply visited_pairs_spec in Hin.
    destruct (pair_update_frame G bodies0 live live' i1 i2) as [Fp _];
      [lia | exact Es | congruence]. }
  assert (Hpair : forall i j oi oj,
             (i < j)%nat -> nth_error bodies0 i = Some oi ->
             nth_error bodies0 j = Some oj ->
             body_distance oi oj <> 0 /\ mass oi <> 0 /\ mass oj <> 0).
  { intros i j oi oj Hij Hi Hj.
    assert (Lj : (j < length bodies0)%nat) by (apply nth_error_Some; congruence).
    destruct (Hsteps (i, j)) as [s [s' [Hinv Es]]];
      [apply visited_pairs_spec; lia |].
    cbn [fst snd] in Es.
    destruct (pair_update_ok_inv G bodies0 s s' i j) as
      [o1 [o2 [b1 [b2 [Ho1 [Ho2 [Hb1 [Hb2 [Hd [N1 N2]]]]]]]]]];
      [lia | exact Es |].
    rewrite Hi in Ho1. rewrite Hj in Ho2.
    injection Ho1 as <-. injection Ho2 as <-.
    destruct (same_at place_and_mass _ _ _ _ Hinv Hi) as [b1' [Hb1' E1]].
    destruct (same_at place_and_mass _ _ _ _ Hinv Hj) as [b2' [Hb2' E2]].
    rewrite Hb1 in Hb1'. rewrite Hb2 in Hb2'.
    injection Hb1' as <-. injection Hb2' as <-.
    unfold place_and_mass in E1, E2.
    repeat split; [exact Hd | congruence | congruence]. }
  split.
  - intros b Hin. apply In_nth_error in Hin. destruct Hin as [k Hk].
    destruct k as [| k].
    + destruct (at_index_lt bodies0 1) as [o [Ho _]]; [lia |].
      apply (Hpair 0%nat 1%nat b o); auto.
    + destruct (at_index_lt bodies0 0) as [o [Ho _]]; [lia |].
      apply (Hpair 0%nat (S k) o b); auto; lia.
  - intros i j bi bj Hne Hi Hj Hsame.
    destruct (Nat.lt_total i j) as [Hlt | [-> | Hlt]]; [| now elim Hne |].
    + destruct (Hpair i j bi bj Hlt Hi Hj) as [Hd _].
      apply Hd. now apply body_distance_zero_iff.
    + destruct (Hpair j i bj bi Hlt Hj Hi) as [Hd _].
      apply Hd. apply body_distance_zero_iff.
      destruct Hsame as [A [B C]]. repeat split; congruence.
Qed.

(** ** Sums over index ranges *)

Lemma sum_of_app {A : Type} (f : A -> R) (l1 l2 : list A) :
  sum_of f (l1 ++ l2) = sum_of f l1 + sum_of f l2.
Proof.
  induction l1 as [| a l1 IH]; simpl; [ring |].
  fold (sum_of f (l1 ++ l2)). fold (sum_of f l1). rewrite IH. ring.
Qed.

Lemma sum_of_map {A B : Type} (f : B -> R) (g : A -> B) (l : list A) :
  sum_of f (map g l) = sum_of (fun a => f (g a)) l.
Proof.
  induction l as [| a l IH]; simpl; [reflexivity |].
  fold (sum_of f (map g l)). now rewrite IH.
Qed.

Lemma sum_of_flat_map {A B : Type} (f : B -> R) (g : A -> list B)
    (l : list A) :
  sum_of f (flat_map g l) = sum_of (fun a => sum_of f (g a)) l.
Proof.
  induction l as [| a l IH]; simpl; [reflexivity |].
  rewrite sum_of_app, IH. reflexivity.
Qed.

Lemma sum_of_ext_in {A : Type} (f g : A -> R) (l : list A) :
  (forall a, In a l -> f a = g a) -> sum_of f l = sum_of g l.
Proof.
  induction l as [| a l IH]; intros H; simpl; [reflexivity |].
  fold (sum_of f l). fold (sum_of g l).
  rewrite (H a (or_introl eq_refl)), IH; [reflexivity |].
  intros b Hb. apply H. now right.
Qed.

Lemma sum_of_zero {A : Type} (f : A -> R) (l : list A) :
  (forall a, In a l -> f a = 0) -> sum_of f l = 0.
Proof.
  induction l as [| a l IH]; intros H; simpl; [reflexivity |].
  fold (sum_of f l).
  rewrite (H a (or_introl eq_refl)), IH; [ring |].
  intros b Hb. apply H. now right.
Qed.

(** A sum that is [c] at the index [k] and 0 elsewhere, over a range that
    holds [k]. *)
Lemma sum_of_single (c : R) (k a len : nat) :
  (a <= k < a + len)%nat ->
  sum_of (fun j => if Nat.eqb k j then c else 0) (seq a len) = c.
Proof.
  revert a. induction len as [| len IH]; intros a H; [lia |].
  cbn [seq sum_of fold_right].
  fold (sum_of (fun j => if Nat.eqb k j then c else 0) (seq (S a) len)).
  destruct (Nat.eqb k a) eqn:E.
  - rewrite sum_of_zero; [ring |].
    intros j Hj. apply in_seq in Hj. apply Nat.eqb_eq in E.
    destruct (Nat.eqb k j) eqn:E'; [apply Nat.eqb_eq in E'; lia | reflexivity].
  - apply Nat.eqb_neq in E. rewrite IH by lia. ring.
Qed.

(** Each body meets every other body once in the pairs of the two loops:
    summing over the pairs what [k] gets from its partner is summing over
    all indices but [k]. *)
Lemma sum_over_visited_pairs (A : nat -> R) (n k : nat) :
  (k < n)%nat ->
  sum_of (fun p => if Nat.eqb k (fst p) then A (snd p)
                   else if Nat.eqb k (snd p) then A (fst p) else 0)
         (visited_pairs n)
  = sum_of (fun j => if Nat.eqb j k then 0 else A j) (seq 0 n).
Proof.
  intros Hk. unfold visited_pairs. rewrite sum_of_flat_map.
  set (T := sum_of A (seq (k + 1) (n - (k + 1)))).
  rewrite (sum_of_ext_in _
             (fun i1 => if Nat.ltb i1 k then A i1
                        else if Nat.eqb i1 k then T else 0)).
  2:{ intros i1 Hi1. apply in_seq in Hi1. rewrite sum_of_map. cbn [fst snd].
      destruct (Nat.ltb i1 k) eqn:Elt.
      - apply Nat.ltb_lt in Elt.
        rewrite (sum_of_ext_in _ (fun j => if Nat.eqb k j then A i1 else 0)).
        + apply sum_of_single. lia.
        + intros j _. destruct (Nat.eqb k i1) eqn:E; [| reflexivity].
          apply Nat.eqb_eq in E. lia.
      - apply Nat.ltb_ge in Elt. destruct (Nat.eqb i1 k) eqn:E.
        + apply Nat.eqb_eq in E. subst i1. unfold T.
          apply sum_of_ext_in. intros j _. now rewrite Nat.eqb_refl.
        + apply Nat.eqb_neq in E. apply sum_of_zero. intros j Hj.
          apply in_seq in Hj.
          destruct (Nat.eqb k i1) eqn:E1; [apply Nat.eqb_eq in E1; lia |].
          destruct (Nat.eqb k j) eqn:E2; [apply Nat.eqb_eq in E2; lia |].
          reflexivity. }
  assert (En1 : seq 0 (n - 1) = seq 0 k ++ seq k (n - 1 - k)).
  { replace (n - 1)%nat with (k + (n - 1 - k))%nat at 1 by lia.
    now rewrite seq_app. }
  assert (En : seq 0 n = seq 0 k ++ k :: seq (S k) (n - (k + 1))).
  { replace n with (k + S (n - (k + 1)))%nat at 1 by lia.
    now rewrite seq_app. }
  rewrite En1, En, !sum_of_app. cbn [sum_of fold_right].
  fold (sum_of (fun j => if Nat.eqb j k then 0 else A j) (seq (S k) (n - (k + 1)))).
  rewrite Nat.eqb_refl.
  f_equal.
  - apply sum_of_ext_in. intros j Hj. apply in_seq in Hj.
    destruct (Nat.ltb j k) eqn:E1; [| apply Nat.ltb_ge in E1; lia].
    destruct (Nat.eqb j k) eqn:E2; [apply Nat.eqb_eq in E2; lia | reflexivity].
  - rewrite Rplus_0_l.
    rewrite (sum_of_ext_in (fun j => if Nat.eqb j k then 0 else A j) A).
    2:{ intros j Hj. apply in_seq in Hj.
        destruct (Nat.eqb j k) eqn:E2; [apply Nat.eqb_eq in E2; lia | reflexivity]. }
    destruct (n - 1 - k)%nat as [| m] eqn:Em.
    + cbn [seq sum_of fold_right].
      replace (n - (k + 1))%nat with 0%nat by lia. reflexivity.
    + cbn [seq sum_of fold_right].
      rewrite Nat.ltb_irrefl, Nat.eqb_refl.
      fold (sum_of (fun i1 => if Nat.ltb i1 k then A i1
                              else if Nat.eqb i1 k then T else 0) (seq (S k) m)).
      rewrite sum_of_zero.
      * unfold T. replace (k + 1)%nat with (S k) by lia. ring.
      * intros j Hj. apply in_seq in Hj.
        destruct (Nat.ltb j k) eqn:E1; [apply Nat.ltb_lt in E1; lia |].
        destruct (Nat.eqb j k) eqn:E2; [apply Nat.eqb_eq in E2; lia | reflexivity].
Qed.

(** ** The velocity each body ends with *)

Lemma body_distance_sym (a b : Body) : body_distance a b = body_distance b a.
Proof.
  unfold body_distance, distance. rewrite <- magnitude_opp. f_equal; ring.
Qed.

Lemma velocity_add_velocity (a : axis) (b : Body) (ax ay az : R) :
  velocity a (add_velocity b ax ay az)
  = velocity a b + match a with AxisX => ax | AxisY => ay | AxisZ => az end.
Proof. destruct a; reflexivity. Qed.

Lemma pair_share_first (G : R) (a : axis) (l : list Body) (i1 i2 : nat)
    (p q : Body) :
  nth_error l i2 = Some q ->
  pair_share G a l i1 p (i1, i2) = acceleration G a p q.
Proof.
  intros H. unfold pair_share. cbn [fst snd]. now rewrite Nat.eqb_refl, H.
Qed.

Lemma pair_share_second (G : R) (a : axis) (l : list Body) (i1 i2 : nat)
    (p q : Body) :
  i1 <> i2 -> nth_error l i1 = Some q ->
  pair_share G a l i2 p (i1, i2) = acceleration G a p q.
Proof.
  intros Hne H. unfold pair_share. cbn [fst snd].
  rewrite (proj2 (Nat.eqb_neq i2 i1)) by (intro; now apply Hne).
  now rewrite Nat.eqb_refl, H.
Qed.

Lemma pair_share_other (G : R) (a : axis) (l : list Body) (k i1 i2 : nat)
    (p : Body) :
  k <> i1 -> k <> i2 -> pair_share G a l k p (i1, i2) = 0.
Proof.
  intros K1 K2. unfold pair_share. cbn [fst snd].
  rewrite (proj2 (Nat.eqb_neq k i1)) by exact K1.
  now rewrite (proj2 (Nat.eqb_neq k i2)) by exact K2.
Qed.

Lemma pair_update_tracks (G : R) (bodies0 : list Body)
    (done : list (nat * nat)) (live live' : list Body) (i1 i2 : nat) :
  (i1 < i2)%nat ->
  tracks_velocity G bodies0 done live ->
  pair_update G bodies0 live i1 i2 = Ok live' ->
  tracks_velocity G bodies0 (done ++ [(i1, i2)]) live'.
Proof.
  intros Hlt [Hpm Hv] E.
  assert (Hne : i1 <> i2) by lia.
  destruct (pair_update_frame G bodies0 live live' i1 i2 Hne E) as [Fp _].
  split; [congruence |].
  destruct (pair_update_ok_inv G bodies0 live live' i1 i2 Hne E)
    as [o1 [o2 [b1 [b2 [Ho1 [Ho2 [Hb1 [Hb2 [Hd [N1 N2]]]]]]]]]].
  pose proof (pair_update_result G bodies0 live i1 i2 o1 o2 b1 b2
                Hne Ho1 Ho2 Hb1 Hb2 Hd N1 N2) as Res.
  cbv zeta in Res. rewrite Res in E. injection E as <-.
  assert (L1 : (i1 < length live)%nat) by (apply nth_error_Some; congruence).
  assert (L2 : (i2 < length live)%nat) by (apply nth_error_Some; congruence).
  destruct (same_at place_and_mass _ _ _ _ Hpm Ho1) as [c1 [Hc1 E1]].
  destruct (same_at place_and_mass _ _ _ _ Hpm Ho2) as [c2 [Hc2 E2]].
  rewrite Hb1 in Hc1. rewrite Hb2 in Hc2.
  injection Hc1 as <-. injection Hc2 as <-.
  assert (M1 : mass b1 = mass o1) by (unfold place_and_mass in E1; congruence).
  assert (M2 : mass b2 = mass o2) by (unfold place_and_mass in E2; congruence).
  intros k p Hk. destruct (Hv k p Hk) as [p' [Hp' Hvel]].
  destruct (Nat.eq_dec k i1) as [-> | K1]; [| destruct (Nat.eq_dec k i2) as [-> | K2]].
  - rewrite Ho1 in Hk. injection Hk as <-.
    rewrite Hb1 in Hp'. injection Hp' as <-.
    eexists. split.
    + rewrite nth_error_set_at_other by (intro; lia).
      apply nth_error_set_at_same. exact L1.
    + intros a. rewrite velocity_add_velocity, (Hvel a), sum_of_app.
      cbn [sum_of fold_right].
      rewrite (pair_share_first G a bodies0 i1 i2 o1 o2 Ho2).
      unfold acceleration. rewrite M1.
      destruct a; cbn [coordinate]; ring.
  - rewrite Ho2 in Hk. injection Hk as <-.
    rewrite Hb2 in Hp'. injection Hp' as <-.
    eexists. split.
    + apply nth_error_set_at_same. rewrite length_set_at. exact L2.
    + intros a. rewrite velocity_add_velocity, (Hvel a), sum_of_app.
      cbn [sum_of fold_right].
      rewrite (pair_share_second G a bodies0 i1 i2 o2 o1 Hne Ho1).
      unfold acceleration.
      rewrite (body_distance_sym o2 o1), M2.
      assert (N2' : mass o2 <> 0) by congruence.
      destruct a; cbn [coordinate]; field; auto.
  - exists p'. split.
    + rewrite !nth_error_set_at_other by (intro; lia). exact Hp'.
    + intros a. rewrite (Hvel a), sum_of_app.
      cbn [sum_of fold_right].
      rewrite (pair_share_other G a bodies0 k i1 i2 p K1 K2). ring.
Qed.

Lemma pairs_fold_tracks (G : R) (bodies0 : list Body)
    (pairs : list (nat * nat)) :
  (forall pr, In pr pairs -> (fst pr < snd pr)%nat) ->
  forall done live live',
    tracks_velocity G bodies0 done live ->
    foldM (fun live pr => pair_update G bodies0 live (fst pr) (snd pr))
          pairs live = Ok live' ->
    tracks_velocity G bodies0 (done ++ pairs) live'.
Proof.
  induction pairs as [| [i1 i2] pairs IH]; intros Hlt done live live' Ht E;
    simpl in E.
  - injection E as <-. now rewrite app_nil_r.
  - apply bind_ok_inv in E. destruct E as [live1 [E1 E2]].
    replace (done ++ (i1, i2) :: pairs) with ((done ++ [(i1, i2)]) ++ pairs)
      by (now rewrite <- app_assoc).
    apply (IH (fun pr H => Hlt pr (or_intror H)) _ live1 live'); [| exact E2].
    apply (pair_update_tracks G bodies0 done live live1 i1 i2); auto.
    apply (Hlt (i1, i2)). now left.
Qed.

(** X6.  Whenever the velocity update returns, each body is where it was,
    weighs what it did, and has on each axis its former velocity plus the
    sum, over all the other bodies of the array, of the acceleration on
    their account (direction toward the other body, times the force,
    divided by the body's own mass). *)
Theorem velocity_update_net_acceleration (G : R) (bodies0 bodies1 : list Body) :
  update_velocities G bodies0 = Ok bodies1 ->
  forall k p, nth_error bodies0 k = Some p ->
    exists p',
      nth_error bodies1 k = Some p' /\
      place_and_mass p' = place_and_mass p /\
      forall a, velocity a p'
                = velocity a p + net_acceleration G a bodies0 k p.
Proof.
  intros E k p Hk. rewrite update_velocities_pairs in E.
  destruct (pairs_fold_tracks G bodies0 (visited_pairs (length bodies0)))
    with (done := @nil (nat * nat)) (live := bodies0) (live' := bodies1)
    as [Hpm Hv].
  - intros [i j] Hin. apply visited_pairs_spec in Hin. cbn [fst snd]. lia.
  - split; [reflexivity |]. intros k' p' Hk'. exists p'. split; [exact Hk' |].
    intros a. cbn [sum_of fold_right]. ring.
  - exact E.
  - destruct (Hv k p Hk) as [p' [Hp' Hvel]]. exists p'.
    split; [exact Hp' |]. split.
    + destruct (same_at place_and_mass _ _ _ _ Hpm Hk) as [q [Hq Eq]].
      rewrite Hp' in Hq. injection Hq as <-. exact Eq.
    + intros a. rewrite (Hvel a). f_equal. cbn [app].
      unfold net_acceleration.
      rewrite <- (sum_over_visited_pairs
                    (fun j => match nth_error bodies0 j with
                              | Some q => acceleration G a p q
                              | None => 0
                              end) (length bodies0) k)
        by (apply nth_error_Some; congruence).
      reflexivity.
Qed.

(** ** Moving the whole collection *)

Lemma at_index_map {A B : Type} (h : A -> B) (l : list A) (i : nat) :
  at_index (map h l) i = map_result h (at_index l i).
Proof.
  unfold at_index. rewrite nth_error_map.
  destruct (nth_error l i); reflexivity.
Qed.

Lemma set_at_map {A B : Type} (h : A -> B) (i : nat) (a : A) (l : list A) :
  set_at i (h a) (map h l) = map h (set_at i a l).
Proof.
  revert i. induction l as [| b l IH]; intros [| i]; simpl; auto.
  now rewrite IH.
Qed.

Lemma foldM_simulation {A B I : Type} (h : A -> B) (f : A -> I -> result A)
    (g : B -> I -> result B) (l : list I) :
  (forall a i, g (h a) i = map_result h (f a i)) ->
  forall a, foldM g l (h a) = map_result h (foldM f l a).
Proof.
  intros Hstep. induction l as [| i l IH]; intros a; simpl; [reflexivity |].
  rewrite Hstep. destruct (f a i) as [a' | flt]; simpl; [apply IH | reflexivity].
Qed.

Lemma distance_translate (x1 y1 z1 x2 y2 z2 dx dy dz : R) :
  distance (x1 + dx) (y1 + dy) (z1 + dz) (x2 + dx) (y2 + dy) (z2 + dz)
  = distance x1 y1 z1 x2 y2 z2.
Proof. unfold distance. f_equal; ring. Qed.

Lemma magnitude_translate (x1 y1 z1 x2 y2 z2 dx dy dz : R) :
  magnitude (x2 + dx - (x1 + dx)) (y2 + dy - (y1 + dy)) (z2 + dz - (z1 + dz))
  = magnitude (x2 - x1) (y2 - y1) (z2 - z1).
Proof. f_equal; ring. Qed.

Lemma add_velocity_add_position (b : Body) (dx dy dz ax ay az : R) :
  add_velocity (add_position b dx dy dz) ax ay az
  = add_position (add_velocity b ax ay az) dx dy dz.
Proof. reflexivity. Qed.

(** One round on the moved arrays is the round on the arrays, moved. *)
Lemma pair_update_translate (G dx dy dz : R) (bodies_old live : list Body)
    (i1 i2 : nat) :
  pair_update G (translate dx dy dz bodies_old) (translate dx dy dz live) i1 i2
  = map_result (translate dx dy dz) (pair_update G bodies_old live i1 i2).
Proof.
  unfold pair_update, translate. rewrite !at_index_map.
  destruct (at_index bodies_old i1) as [o1 |]; [| reflexivity].
  destruct (at_index bodies_old i2) as [o2 |]; [| reflexivity].
  cbn [map_result bind add_position x y z mass].
  rewrite distance_translate, magnitude_translate.
  destruct (newton_law_of_universal_gravitation G (mass o1) (mass o2)
              (distance (x o1) (y o1) (z o1) (x o2) (y o2) (z o2)))
    as [force |]; [| reflexivity].
  cbn [bind].
  replace (x o2 + dx - (x o1 + dx)) with (x o2 - x o1) by ring.
  replace (y o2 + dy - (y o1 + dy)) with (y o2 - y o1) by ring.
  replace (z o2 + dz - (z o1 + dz)) with (z o2 - z o1) by ring.
  destruct (fdiv (x o2 - x o1) (magnitude (x o2 - x o1) (y o2 - y o1) (z o2 - z o1)))
    as [xn |]; [| reflexivity].
  destruct (fdiv (y o2 - y o1) (magnitude (x o2 - x o1) (y o2 - y o1) (z o2 - z o1)))
    as [yn |]; [| reflexivity].
  destruct (fdiv (z o2 - z o1) (magnitude (x o2 - x o1) (y o2 - y o1) (z o2 - z o1)))
    as [zn |]; [| reflexivity].
  cbn [bind].
  destruct (at_index live i1) as [b1 |]; [| reflexivity].
  cbn [map_result bind add_position mass].
  destruct (fdiv (xn * force) (mass b1)) as [ax1 |]; [| reflexivity].
  destruct (fdiv (yn * force) (mass b1)) as [ay1 |]; [| reflexivity].
  destruct (fdiv (zn * force) (mass b1)) as [az1 |]; [| reflexivity].
  cbn [bind].
  rewrite add_velocity_add_position.
  rewrite (set_at_map (fun body => add_position body dx dy dz)).
  rewrite at_index_map.
  destruct (at_index (set_at i1 (add_velocity b1 ax1 ay1 az1) live) i2)
    as [b2 |]; [| reflexivity].
  cbn [map_result bind add_position mass].
  destruct (fdiv (- (xn * force)) (mass b2)) as [ax2 |]; [| reflexivity].
  destruct (fdiv (- (yn * force)) (mass b2)) as [ay2 |]; [| reflexivity].
  destruct (fdiv (- (zn * force)) (mass b2)) as [az2 |]; [| reflexivity].
  cbn [bind map_result].
  rewrite add_velocity_add_position.
  now rewrite (set_at_map (fun body => add_position body dx dy dz)).
Qed.

Lemma update_velocities_translate (G dx dy dz : R) (bodies0 : list Body) :
  update_velocities G (translate dx dy dz bodies0)
  = map_result (translate dx dy dz) (update_velocities G bodies0).
Proof.
  rewrite !update_velocities_pairs.
  unfold translate at 2. rewrite length_map. fold (translate dx dy dz bodies0).
  apply (foldM_simulation (translate dx dy dz)
           (fun live p => pair_update G bodies0 live (fst p) (snd p))).
  intros live p. apply pair_update_translate.
Qed.

(** X7.  The velocity update sees only relative positions: run on a
    collection moved as a whole by any vector, it fails when and as it fails
    on the collection itself, and otherwise returns the same bodies, moved
    by that vector, with the same velocities. *)
Theorem velocity_update_translation (G dx dy dz : R) (bodies0 : list Body) :
  update_velocities G (translate dx dy dz bodies0)
  = map_result (translate dx dy dz) (update_velocities G bodies0).
Proof. apply update_velocities_translate. Qed.

(** ** Recentring, again *)

Lemma sum_over_same_map (f : Body -> R) (l1 l2 : list Body) :
  map f l1 = map f l2 -> sum_over f l1 = sum_over f l2.
Proof.
  revert l2. induction l1 as [| a l1 IH]; intros [| b l2] H; simpl in *;
    try discriminate; [reflexivity |].
  injection H as Hab Hl. fold (sum_over f l1). fold (sum_over f l2).
  now rewrite Hab, (IH l2 Hl).
Qed.

Lemma same_places (l1 l2 : list Body) :
  map place_and_mass l1 = map place_and_mass l2 ->
  map x l1 = map x l2 /\ map y l1 = map y l2 /\ map z l1 = map z l2 /\
  map mass l1 = map mass l2.
Proof.
  intros H.
  assert (Hx : forall l, map x l = map (fun t => fst (fst (fst t))) (map place_and_mass l))
    by (intros l; rewrite map_map; reflexivity).
  assert (Hy : forall l, map y l = map (fun t => snd (fst (fst t))) (map place_and_mass l))
    by (intros l; rewrite map_map; reflexivity).
  assert (Hz : forall l, map z l = map (fun t => snd (fst t)) (map place_and_mass l))
    by (intros l; rewrite map_map; reflexivity).
  assert (Hm : forall l, map mass l = map (fun t => snd t) (map place_and_mass l))
    by (intros l; rewrite map_map; reflexivity).
  rewrite (Hx l1), (Hx l2), (Hy l1), (Hy l2), (Hz l1), (Hz l2), (Hm l1), (Hm l2), H.
  auto.
Qed.

(** Recentring is moving the collection by the opposite of its centroid. *)
Lemma recenter_result (bodies0 : list Body) :
  bodies0 <> [] ->
  recenter bodies0
  = Ok (translate (- mean_of x bodies0) (- mean_of y bodies0)
                  (- mean_of z bodies0) bodies0).
Proof.
  intros Hne.
  assert (Hn : INR (length bodies0) <> 0).
  { apply not_0_INR. destruct bodies0; [contradiction | discriminate]. }
  unfold recenter. rewrite position_sums_spec.
  rewrite !(fdiv_ok _ _ Hn). cbn [bind]. reflexivity.
Qed.

Lemma mean_of_same_map (f : Body -> R) (l1 l2 : list Body) :
  map f l1 = map f l2 -> mean_of f l1 = mean_of f l2.
Proof.
  intros H. unfold mean_of. rewrite (sum_over_same_map f l1 l2 H).
  now rewrite <- (length_map f l1), H, length_map.
Qed.


Lemma map_fixed {A : Type} (f : A -> A) (l : list A) :
  (forall a, f a = a) -> map f l = l.
Proof. intros H. induction l as [| a l IH]; simpl; [| rewrite H, IH]; reflexivity. Qed.

(** X9.  Recentring touches positions only and is idempotent: for a
    collection of at least one body it returns as many bodies, with the same
    velocities and masses, and recentring the result returns the result
    itself. *)
Theorem recenter_idempotent (bodies0 : list Body) :
  bodies0 <> [] ->
  exists bodies1,
    recenter bodies0 = Ok bodies1 /\
    length bodies1 = length bodies0 /\
    map (fun b => (vx b, vy b, vz b, mass b)) bodies1
      = map (fun b => (vx b, vy b, vz b, mass b)) bodies0 /\
    recenter bodies1 = Ok bodies1.
Proof.
  intros Hne.
  assert (Hn : INR (length bodies0) <> 0).
  { apply not_0_INR. destruct bodies0; [contradiction | discriminate]. }
  set (cx := mean_of x bodies0). set (cy := mean_of y bodies0).
  set (cz := mean_of z bodies0).
  exists (translate (- cx) (- cy) (- cz) bodies0).
  split; [apply recenter_result, Hne |].
  split; [apply length_map |].
  split; [unfold translate; rewrite map_map; reflexivity |].
  assert (Hne' : translate (- cx) (- cy) (- cz) bodies0 <> [])
    by (intros E; apply map_eq_nil in E; contradiction).
  rewrite (recenter_result _ Hne'). f_equal.
  assert (M : forall (f : Body -> R) (c : R),
             c = mean_of f bodies0 ->
             (forall b, f (add_position b (- cx) (- cy) (- cz)) = f b - c) ->
             mean_of f (translate (- cx) (- cy) (- cz) bodies0) = 0).
  { intros f c Ec Hf. unfold mean_of, translate. rewrite length_map.
    rewrite (sum_over_shifted f _ c) by exact Hf.
    rewrite Ec. unfold mean_of. field. exact Hn. }
  rewrite (M x cx eq_refl) by (intros b; reflexivity).
  rewrite (M y cy eq_refl) by (intros b; reflexivity).
  rewrite (M z cz eq_refl) by (intros b; reflexivity).
  unfold translate at 1. apply map_fixed.
  intros [bx by_ bz bvx bvy bvz bm]. unfold add_position. cbn [x y z vx vy vz mass].
  apply mkBody_eq; lra.
Qed.

(** ** The position update *)

(** X10.  The position update leaves velocities and masses alone and adds
    the velocity to the position: after [k] position updates in a row each
    body, written out field by field, has each position component raised by
    [k] times the velocity component, and its velocity and mass as they
    were. *)
Theorem advance_positions_iterated (k : nat) (bodies0 : list Body) :
  Nat.iter k advance_positions bodies0
  = map (fun body => mkBody (x body + INR k * vx body)
                            (y body + INR k * vy body)
                            (z body + INR k * vz body)
                            (vx body) (vy body) (vz body) (mass body))
        bodies0.
Proof.
  induction k as [| k IH].
  - change (Nat.iter 0 advance_positions bodies0) with bodies0.
    symmetry. apply map_fixed.
    intros [bx by_ bz bvx bvy bvz bm].
    cbn [x y z vx vy vz mass INR]. apply mkBody_eq; lra.
  - rewrite Nat.iter_succ, IH. unfold advance_positions. rewrite map_map.
    apply map_ext. intros [bx by_ bz bvx bvy bvz bm].
    unfold add_position. cbn [x y z vx vy vz mass]. rewrite S_INR.
    apply mkBody_eq; lra.
Qed.

(** Two position updates of a body at the origin with velocity (1, 2, 3). *)
Lemma advance_positions_iterated_witness :
  Nat.iter 2 advance_positions [mkBody 0 0 0 1 2 3 4]
  = [mkBody (0 + INR 2 * 1) (0 + INR 2 * 2) (0 + INR 2 * 3) 1 2 3 4].
Proof.
  exact (advance_positions_iterated 2 [mkBody 0 0 0 1 2 3 4]).
Defined.

(** ** The shape of the text *)

Lemma join_lines_length (w : nat) (lines : list (list ascii)) :
  Forall (fun line => length line = w) lines ->
  length (join_lines lines) = (length lines * (w + 1))%nat.
Proof.
  rewrite join_lines_concat. intros HF.
  induction HF as [| line lines Hlen HF IH]; [reflexivity |].
  cbn [map concat length]. rewrite !length_app, IH, Hlen. cbn [length]. lia.
Qed.

Lemma join_lines_newline (w : nat) (lines : list (list ascii)) (r : nat) :
  Forall (fun line => length line = w) lines ->
  (r < length lines)%nat ->
  nth_error (join_lines lines) (r * (w + 1) + w) = Some newline.
Proof.
  rewrite join_lines_concat. intros HF. revert r.
  induction HF as [| line lines Hlen HF IH]; intros r Hr; [simpl in Hr; lia |].
  cbn [map concat]. destruct r as [| r].
  - cbn [Nat.mul Nat.add].
    rewrite nth_error_app1 by (rewrite length_app; cbn [length]; lia).
    rewrite nth_error_app2 by lia.
    replace (w - length line)%nat with 0%nat by lia. reflexivity.
  - rewrite nth_error_app2 by (rewrite length_app; cbn [length]; lia).
    rewrite length_app. cbn [length].
    replace (S r * (w + 1) + w - (length line + 1))%nat
      with (r * (w + 1) + w)%nat by lia.
    apply IH. simpl in Hr. lia.
Qed.

Lemma join_lines_characters (lines : list (list ascii)) :
  Forall (Forall grid_character) lines ->
  Forall map_character (join_lines lines).
Proof.
  rewrite join_lines_concat. intros HF.
  induction HF as [| line lines Hline HF IH]; [constructor |].
  cbn [map concat]. apply Forall_app. split; [| exact IH].
  apply Forall_app. split.
  - apply Forall_impl with (P := grid_character); [| exact Hline].
    intros c Hc. right. exact Hc.
  - constructor; [now left | constructor].
Qed.

Lemma write_cell_form (lines lines' : list (list ascii)) (yi xi : Z) (c : ascii) :
  write_cell lines yi xi c = Ok lines' ->
  exists line,
    nth_error lines (Z.to_nat yi) = Some line /\
    (Z.to_nat xi < length line)%nat /\
    lines' = set_at (Z.to_nat yi) (set_at (Z.to_nat xi) c line) lines.
Proof.
  unfold write_cell. intros E.
  apply bind_ok_inv in E. destruct E as [line [Hl E]].
  apply at_index_inv in Hl.
  destruct (Z.to_nat xi <? length line)%nat eqn:Hx; [| discriminate].
  apply Nat.ltb_lt in Hx. injection E as <-. eauto.
Qed.

Lemma plot_keeps_characters (height width : Z) (b : Bounds)
    (lines lines' : list (list ascii)) (body : Body) :
  plot height width b lines body = Ok lines' ->
  Forall (Forall grid_character) lines ->
  Forall (Forall grid_character) lines'.
Proof.
  intros E HF. apply plot_inv in E.
  destruct E as [xi [yi [zi [c [_ [Hc Ew]]]]]].
  apply write_cell_form in Ew. destruct Ew as [line [Hl [_ ->]]].
  apply Forall_set_at; [exact HF |].
  apply Forall_set_at.
  - rewrite Forall_forall in HF. apply HF. eapply nth_error_In; eauto.
  - right. eapply nth_error_In; eauto.
Qed.

Lemma blank_lines_characters (height width : Z) :
  Forall (Forall grid_character) (blank_lines height width).
Proof.
  unfold blank_lines. apply Forall_forall. intros line Hin.
  apply repeat_spec in Hin. subst line.
  apply Forall_forall. intros c Hc. apply repeat_spec in Hc. now left.
Qed.

(** What the lines are like whenever the second loop is over. *)
Lemma render_lines_shape (height width : Z) (bodies0 : list Body)
    (lines : list (list ascii)) :
  render_lines height width bodies0 = Ok lines ->
  grid_shape height width lines /\ Forall (Forall grid_character) lines.
Proof.
  intros E. unfold render_lines in E. split.
  - apply (foldM_ok_preserves (grid_shape height width)) in E;
      [exact E | | apply blank_lines_shape].
    intros a b a' Ep Hs. exact (plot_keeps_shape _ _ _ _ _ _ Ep Hs).
  - apply (foldM_ok_preserves (Forall (Forall grid_character))) in E;
      [exact E | | apply blank_lines_characters].
    intros a b a' Ep Hs. exact (plot_keeps_characters _ _ _ _ _ _ Ep Hs).
Qed.

(** X11.  Whenever the renderer returns a text, the text is [height] lines
    of exactly [width] characters, each followed by a newline: its length is
    [height * (width + 1)], the character after the [width] characters of
    every line is the newline, and every character of the text is the
    newline, a space or one of the sixteen palette characters. *)
Theorem rendered_text_shape (height width : Z) (bodies0 : list Body)
    (output : list ascii) :
  create_map_of_bodies height width bodies0 = Ok output ->
  length output = (Z.to_nat height * (Z.to_nat width + 1))%nat /\
  (forall r, (r < Z.to_nat height)%nat ->
             nth_error output (r * (Z.to_nat width + 1) + Z.to_nat width)
             = Some newline) /\
  Forall map_character output.
Proof.
  intros E. unfold create_map_of_bodies in E.
  apply bind_ok_inv in E. destruct E as [lines [El E]]. injection E as <-.
  destruct (render_lines_shape _ _ _ _ El) as [[HL HF] HC].
  split; [| split].
  - rewrite (join_lines_length (Z.to_nat width)) by exact HF. now rewrite HL.
  - intros r Hr. apply join_lines_newline; [exact HF | now rewrite HL].
  - now apply join_lines_characters.
Qed.

(** ** How the renderer fails *)

Lemma fdiv_by_zero (a b : R) : b = 0 -> fdiv a b = Fault DivByZero.
Proof. intros ->. apply fdiv_zero. Qed.

Lemma uint_sub_range (a b : Z) : (0 <= uint_sub a b < UINT_SIZE)%Z.
Proof. unfold uint_sub. apply Z.mod_pos_bound. rewrite UINT_SIZE_eq. lia. Qed.

(** With a positive extent the index is defined for every number of cells
    an [unsigned int] can hold, 0 included ([cells - 1] wraps around). *)
Lemma grid_index_defined (v lo hi : R) (cells : Z) :
  lo <= v <= hi -> lo < hi ->
  exists k, grid_index v lo hi cells = Ok k /\ (0 <= k <= uint_sub cells 1)%Z.
Proof.
  intros Hv Hlt. unfold grid_index. rewrite fdiv_ok by lra. cbn [bind].
  pose proof (uint_sub_range cells 1) as Hs.
  pose proof (inverse_lerp_range v lo hi Hv Hlt) as [T0 T1].
  assert (Hc0 : 0 <= IZR (uint_sub cells 1)) by (apply IZR_le; lia).
  assert (Hr : (0 <= c_round ((v - lo) / (hi - lo) * IZR (uint_sub cells 1))
                <= uint_sub cells 1)%Z) by (apply c_round_range; split; nra).
  eexists. split; [apply to_uint_ok; lia | exact Hr].
Qed.

Lemma grid_index_zero_extent (v lo hi : R) (cells : Z) :
  lo = hi -> grid_index v lo hi cells = Fault DivByZero.
Proof.
  intros ->. unfold grid_index. rewrite fdiv_by_zero by ring. reflexivity.
Qed.

Lemma body_cell_zero_extent (height width : Z) (bodies0 : list Body)
    (body : Body) :
  In body bodies0 ->
  lowest_x (bounds_of bodies0) = highest_x (bounds_of bodies0) \/
  lowest_y (bounds_of bodies0) = highest_y (bounds_of bodies0) \/
  lowest_z (bounds_of bodies0) = highest_z (bounds_of bodies0) ->
  body_cell height width (bounds_of bodies0) body = Fault DivByZero.
Proof.
  intros Hin Hzero.
  destruct (body_within_bounds bodies0 body Hin) as [Bx [By Bz]].
  unfold body_cell.
  destruct (Req_dec_T (lowest_x (bounds_of bodies0)) (highest_x (bounds_of bodies0)))
    as [Ex | Nx]; [now rewrite (grid_index_zero_extent _ _ _ _ Ex) |].
  destruct (grid_index_defined (x body) _ _ width Bx) as [xi [-> _]]; [lra |].
  cbn [bind].
  destruct (Req_dec_T (lowest_y (bounds_of bodies0)) (highest_y (bounds_of bodies0)))
    as [Ey | Ny]; [now rewrite (grid_index_zero_extent _ _ _ _ Ey) |].
  destruct (grid_index_defined (y body) _ _ height By) as [yi [-> _]]; [lra |].
  cbn [bind].
  destruct Hzero as [E | [E | E]]; try contradiction.
  now rewrite (grid_index_zero_extent _ _ _ _ E).
Qed.

(** X12.  When the collection holds a body and the bounds the renderer
    computed coincide on some axis (all the bodies share that coordinate),
    the renderer divides by zero at the first body, whatever the height and
    the width. *)
Theorem zero_extent_divides_by_zero (height width : Z) (bodies0 : list Body) :
  bodies0 <> [] ->
  lowest_x (bounds_of bodies0) = highest_x (bounds_of bodies0) \/
  lowest_y (bounds_of bodies0) = highest_y (bounds_of bodies0) \/
  lowest_z (bounds_of bodies0) = highest_z (bounds_of bodies0) ->
  create_map_of_bodies height width bodies0 = Fault DivByZero.
Proof.
  intros Hne Hzero. destruct bodies0 as [| body rest]; [contradiction |].
  unfold create_map_of_bodies, render_lines. cbn [foldM]. unfold plot at 1.
  rewrite (body_cell_zero_extent height width (body :: rest) body);
    [reflexivity | now left | exact Hzero].
Qed.

(** X13.  When the collection holds a body and the bounds have a positive
    extent on each axis, a height of 0 or a width of 0 makes the first write
    fall outside the grid. *)
Theorem zero_size_out_of_bounds (height width : Z) (bodies0 : list Body) :
  bodies0 <> [] ->
  (0 <= height < UINT_SIZE)%Z -> (0 <= width < UINT_SIZE)%Z ->
  height = 0%Z \/ width = 0%Z ->
  lowest_x (bounds_of bodies0) < highest_x (bounds_of bodies0) ->
  lowest_y (bounds_of bodies0) < highest_y (bounds_of bodies0) ->
  lowest_z (bounds_of bodies0) < highest_z (bounds_of bodies0) ->
  create_map_of_bodies height width bodies0 = Fault OutOfBounds.
Proof.
  intros Hne Hh Hw Hzero Ex Ey Ez.
  destruct bodies0 as [| body rest]; [contradiction |].
  destruct (body_within_bounds (body :: rest) body (or_introl eq_refl))
    as [Bx [By Bz]].
  destruct (grid_index_defined (x body) _ _ width Bx Ex) as [xi [Gx Rx]].
  destruct (grid_index_defined (y body) _ _ height By Ey) as [yi [Gy Ry]].
  destruct (grid_index_defined (z body) _ _ z_size Bz Ez) as [zi [Gz Rz]].
  assert (Z15 : uint_sub z_size 1 = 15%Z) by reflexivity.
  rewrite Z15 in Rz.
  destruct (at_index_lt z_characters (Z.to_nat zi)) as [c [_ Hc]].
  { change (length z_characters) with 16%nat. lia. }
  unfold create_map_of_bodies, render_lines. cbn [foldM].
  unfold plot at 1, body_cell.
  rewrite Gx; cbn [bind]. rewrite Gy; cbn [bind]. rewrite Gz; cbn [bind].
  rewrite Hc; cbn [bind].
  assert (W : write_cell (blank_lines height width) yi xi c = Fault OutOfBounds).
  { unfold write_cell, blank_lines.
    destruct (Z.eq_dec height 0) as [-> | Hh0].
    - cbn [Z.to_nat repeat]. unfold at_index.
      destruct (Z.to_nat yi); reflexivity.
    - destruct Hzero as [-> | ->]; [now elim Hh0 |].
      assert (Es : uint_sub height 1 = (height - 1)%Z)
        by (unfold uint_sub; apply Z.mod_small; lia).
      rewrite Es in Ry.
      destruct (at_index_lt (repeat (repeat space (Z.to_nat 0)) (Z.to_nat height))
                  (Z.to_nat yi)) as [line [Hl ->]];
        [rewrite repeat_length; lia |].
      cbn [bind]. apply nth_error_In, repeat_spec in Hl. subst line.
      reflexivity. }
  rewrite W. reflexivity.
Qed.

(** ** What the renderer reads *)

Lemma foldM_same {A I : Type} (f : A -> I -> result A) (l1 l2 : list I) :
  Forall2 (fun i j => forall a, f a i = f a j) l1 l2 ->
  forall a, foldM f l1 a = foldM f l2 a.
Proof.
  intros H. induction H as [| i j l1 l2 Hij _ IH]; intros a; simpl;
    [reflexivity |].
  rewrite Hij. destruct (f a j) as [a' | flt]; simpl; [apply IH | reflexivity].
Qed.

Lemma same_map_Forall2 {A B : Type} (h : A -> B) (l1 l2 : list A) :
  map h l1 = map h l2 -> Forall2 (fun a b => h a = h b) l1 l2.
Proof.
  revert l2. induction l1 as [| a l1 IH]; intros [| b l2] H; simpl in H;
    try discriminate; [constructor |].
  injection H as Hab Hl. constructor; auto.
Qed.

Lemma same_place_coordinates (l1 l2 : list Body) :
  map place l1 = map place l2 ->
  map x l1 = map x l2 /\ map y l1 = map y l2 /\ map z l1 = map z l2.
Proof.
  intros H.
  assert (Hx : forall l, map x l = map (fun t => fst (fst t)) (map place l))
    by (intros l; rewrite map_map; reflexivity).
  assert (Hy : forall l, map y l = map (fun t => snd (fst t)) (map place l))
    by (intros l; rewrite map_map; reflexivity).
  assert (Hz : forall l, map z l = map (fun t => snd t) (map place l))
    by (intros l; rewrite map_map; reflexivity).
  rewrite (Hx l1), (Hx l2), (Hy l1), (Hy l2), (Hz l1), (Hz l2), H. auto.
Qed.

Lemma plot_same_place (height width : Z) (b : Bounds)
    (lines : list (list ascii)) (body body' : Body) :
  place body = place body' ->
  plot height width b lines body = plot height width b lines body'.
Proof.
  unfold place. intros E. injection E as Ex Ey Ez.
  unfold plot, body_cell. now rewrite Ex, Ey, Ez.
Qed.

Lemma create_map_same_places (height width : Z) (bodies1 bodies2 : list Body) :
  map place bodies1 = map place bodies2 ->
  create_map_of_bodies height width bodies1
  = create_map_of_bodies height width bodies2.
Proof.
  intros H. destruct (same_place_coordinates _ _ H) as [Hx [Hy Hz]].
  assert (Hb : bounds_of bodies1 = bounds_of bodies2)
    by (rewrite !bounds_of_spec, Hx, Hy, Hz; reflexivity).
  unfold create_map_of_bodies, render_lines. rewrite Hb.
  rewrite (foldM_same (plot height width (bounds_of bodies2)) bodies1 bodies2);
    [reflexivity |].
  apply same_map_Forall2 in H.
  apply Forall2_impl with (R1 := fun a b => place a = place b); [| exact H].
  intros a b Hab lines. now apply plot_same_place.
Qed.

(** X14.  The renderer reads positions only: two collections whose bodies
    are at the same places, whatever their velocities and masses, give the
    same result, text or failure. *)
Theorem render_reads_positions_only (height width : Z)
    (bodies1 bodies2 : list Body) :
  map place bodies1 = map place bodies2 ->
  create_map_of_bodies height width bodies1
  = create_map_of_bodies height width bodies2.
Proof. apply create_map_same_places. Qed.

(** ** Where a body is drawn *)

Lemma Int_part_monotone (r1 r2 : R) : r1 <= r2 -> (Int_part r1 <= Int_part r2)%Z.
Proof.
  intros H. destruct (base_Int_part r1) as [L1 _].
  destruct (base_Int_part r2) as [_ U2].
  assert (Hlt : (Int_part r1 < Int_part r2 + 1)%Z)
    by (apply lt_IZR; rewrite plus_IZR; lra).
  lia.
Qed.

Lemma c_round_monotone (r1 r2 : R) :
  0 <= r1 -> r1 <= r2 -> (c_round r1 <= c_round r2)%Z.
Proof.
  intros H0 H. unfold c_round.
  destruct (Rle_dec 0 r1) as [_ | N]; [| contradiction].
  destruct (Rle_dec 0 r2) as [_ | N]; [| elim N; lra].
  apply Int_part_monotone. lra.
Qed.

(** X15.  The inverse interpolation of the renderer keeps the order along
    an axis: with a positive extent and at least one cell, of two
    coordinates between the bounds the greater one never gets the smaller
    index; the lowest bound gets index 0 and the highest bound the last
    index, [cells - 1]. *)
Theorem grid_index_keeps_order (v1 v2 lo hi : R) (cells : Z) :
  lo < hi -> (1 <= cells < UINT_SIZE)%Z ->
  lo <= v1 -> v1 <= v2 -> v2 <= hi ->
  exists k1 k2,
    grid_index v1 lo hi cells = Ok k1 /\
    grid_index v2 lo hi cells = Ok k2 /\
    (0 <= k1 <= k2)%Z /\ (k2 <= cells - 1)%Z /\
    grid_index lo lo hi cells = Ok 0%Z /\
    grid_index hi lo hi cells = Ok (cells - 1)%Z.
Proof.
  intros Hlt Hc H1 H12 H2.
  assert (Es : uint_sub cells 1 = (cells - 1)%Z)
    by (unfold uint_sub; apply Z.mod_small; lia).
  assert (Hc0 : 0 <= IZR (cells - 1)) by (apply IZR_le; lia).
  assert (Hinv : 0 < / (hi - lo)) by (apply Rinv_0_lt_compat; lra).
  pose proof (inverse_lerp_range v1 lo hi (conj H1 (Rle_trans _ _ _ H12 H2)) Hlt)
    as [A0 A1].
  pose proof (inverse_lerp_range v2 lo hi (conj (Rle_trans _ _ _ H1 H12) H2) Hlt)
    as [B0 B1].
  assert (Hq : (v1 - lo) / (hi - lo) <= (v2 - lo) / (hi - lo))
    by (unfold Rdiv; nra).
  exists (c_round ((v1 - lo) / (hi - lo) * IZR (cells - 1))),
         (c_round ((v2 - lo) / (hi - lo) * IZR (cells - 1))).
  assert (R1 : (0 <= c_round ((v1 - lo) / (hi - lo) * IZR (cells - 1))
                <= cells - 1)%Z) by (apply c_round_range; split; nra).
  assert (R2 : (0 <= c_round ((v2 - lo) / (hi - lo) * IZR (cells - 1))
                <= cells - 1)%Z) by (apply c_round_range; split; nra).
  assert (M : (c_round ((v1 - lo) / (hi - lo) * IZR (cells - 1))
               <= c_round ((v2 - lo) / (hi - lo) * IZR (cells - 1)))%Z)
    by (apply c_round_monotone; nra).
  unfold grid_index at 1 2. rewrite !fdiv_ok by lra. cbn [bind]. rewrite Es.
  rewrite !to_uint_ok by lia.
  repeat split; try lia.
  - now apply grid_index_lowest.
  - now apply grid_index_highest.
Qed.

Lemma c_round_half (cells : Z) :
  (1 <= cells)%Z -> c_round (/ 2 * IZR (cells - 1)) = (cells / 2)%Z.
Proof.
  intros Hc. unfold c_round.
  assert (H0 : 0 <= IZR (cells - 1)) by (apply IZR_le; lia).
  destruct (Rle_dec 0 (/ 2 * IZR (cells - 1))) as [_ | N]; [| elim N; lra].
  symmetry. apply Int_part_spec.
  pose proof (Z.div_mod cells 2 ltac:(lia)) as Hdm.
  pose proof (Z.mod_pos_bound cells 2 ltac:(lia)) as [M0 M1].
  assert (E : IZR cells = 2 * IZR (cells / 2) + IZR (cells mod 2))
    by (rewrite Hdm at 1; rewrite plus_IZR, mult_IZR; reflexivity).
  assert (Hm0 : 0 <= IZR (cells mod 2)) by (apply IZR_le; lia).
  assert (Hm1 : IZR (cells mod 2) <= 1) by (apply IZR_le; lia).
  rewrite minus_IZR. lra.
Qed.

(** X16.  A body halfway between the bounds on an axis gets the index
    [cells / 2] (integer division) of the [cells] cells: the central cell
    when the number of cells is odd, the first cell of the second half when
    it is even. *)
Theorem grid_index_midpoint (lo hi : R) (cells : Z) :
  lo < hi -> (1 <= cells < UINT_SIZE)%Z ->
  grid_index ((lo + hi) / 2) lo hi cells = Ok (cells / 2)%Z.
Proof.
  intros Hlt Hc. unfold grid_index. rewrite fdiv_ok by lra. cbn [bind].
  assert (Es : uint_sub cells 1 = (cells - 1)%Z)
    by (unfold uint_sub; apply Z.mod_small; lia).
  rewrite Es.
  replace (((lo + hi) / 2 - lo) / (hi - lo)) with (/ 2) by (field; lra).
  rewrite c_round_half by lia. apply to_uint_ok.
  split; [apply Z.div_pos; lia |].
  apply Z.le_lt_trans with cells; [| lia].
  apply Z.div_le_upper_bound; lia.
Qed.

(** ** The draws of the initialisation *)

Lemma init_body_draws (RAND_MAX : Z) (rand_source : nat -> Z) (n s : nat) :
  init_body RAND_MAX rand_source n s
  = (body_from_draws RAND_MAX rand_source n s, (s + 7)%nat).
Proof.
  unfold init_body, randndouble, randn1to1double, rand01double, rand,
    body_from_draws.
  rewrite !Nat.add_succ_r, Nat.add_0_r. reflexivity.
Qed.

Lemma init_loop_draws (RAND_MAX : Z) (rand_source : nat -> Z) (n count s : nat) :
  init_loop RAND_MAX rand_source n count s
  = (map (fun k => body_from_draws RAND_MAX rand_source n (s + 7 * k))
         (seq 0 count),
     (s + 7 * count)%nat).
Proof.
  revert s. induction count as [| count IH]; intros s.
  - cbn [init_loop seq map]. now rewrite Nat.mul_0_r, Nat.add_0_r.
  - cbn [init_loop]. rewrite init_body_draws, IH.
    f_equal; [| lia].
    cbn [seq map]. rewrite Nat.mul_0_r, Nat.add_0_r. f_equal.
    rewrite <- seq_shift, map_map. apply map_ext.
    intros k. f_equal. lia.
Qed.

(** X17.  The initialisation calls [rand()] seven times per body and
    nowhere else: body number [k] is built from the draws number [7 k] to
    [7 k + 6], in the order x, y, z, vx, vy, vz, mass (a position component
    is [(r / RAND_MAX * 2 - 1) * n], a velocity component or a mass is
    [r / RAND_MAX]), and [7 n] draws are consumed in all. *)
Theorem initialize_draws (RAND_MAX : Z) (rand_source : nat -> Z) (n : nat) :
  initialize RAND_MAX rand_source n
  = map (fun k => body_from_draws RAND_MAX rand_source n (7 * k)) (seq 0 n) /\
  snd (init_loop RAND_MAX rand_source n n O) = (7 * n)%nat.
Proof.
  unfold initialize. rewrite init_loop_draws. cbn [fst snd]. split; reflexivity.
Qed.

(** ** One whole update *)

Lemma recenter_ok_nonempty (l l' : list Body) : recenter l = Ok l' -> l <> [].
Proof.
  intros E ->. unfold recenter in E. cbn [position_sums fold_left length INR] in E.
  rewrite fdiv_zero in E. discriminate.
Qed.

Lemma sum_over_map_same (f : Body -> R) (g : Body -> Body) (l : list Body) :
  (forall b, f (g b) = f b) -> sum_over f (map g l) = sum_over f l.
Proof.
  intros H. apply sum_over_same_map. rewrite map_map. now apply map_ext.
Qed.

Lemma translate_mean_zero (l : list Body) :
  l <> [] ->
  let l' := translate (- mean_of x l) (- mean_of y l) (- mean_of z l) l in
  mean_of x l' = 0 /\ mean_of y l' = 0 /\ mean_of z l' = 0.
Proof.
  intros Hne.
  assert (Hn : INR (length l) <> 0).
  { apply not_0_INR. destruct l; [contradiction | discriminate]. }
  cbv zeta. unfold mean_of at 1 5 9, translate. rewrite !length_map.
  rewrite (sum_over_shifted x _ (mean_of x l)) by (intros b; reflexivity).
  rewrite (sum_over_shifted y _ (mean_of y l)) by (intros b; reflexivity).
  rewrite (sum_over_shifted z _ (mean_of z l)) by (intros b; reflexivity).
  unfold mean_of. repeat split; field; exact Hn.
Qed.

(** What one whole update keeps and establishes, whenever it returns. *)
Lemma update_keeps (height width : Z) (w w' : World) (text : list ascii) :
  update height width w = Ok (text, w') ->
  create_map_of_bodies height width (bodies w) = Ok text /\
  length (bodies w') = length (bodies w) /\
  map mass (bodies w') = map mass (bodies w) /\
  (mean_of x (bodies w') = 0 /\ mean_of y (bodies w') = 0 /\
   mean_of z (bodies w') = 0) /\
  (momentum_x (bodies w') = momentum_x (bodies w) /\
   momentum_y (bodies w') = momentum_y (bodies w) /\
   momentum_z (bodies w') = momentum_z (bodies w)) /\
  updateCount w' = ((updateCount w + 1) mod UINT_SIZE)%Z /\
  rand_calls w' = rand_calls w.
Proof.
  unfold update, call_create_map_of_bodies. intros E.
  apply bind_ok_inv in E. destruct E as [text0 [Et E]].
  apply bind_ok_inv in E. destruct E as [acc [Ea E]].
  apply bind_ok_inv in E. destruct E as [centred [Ec E]].
  injection E as <- <-. cbn [bodies updateCount rand_calls].
  pose proof (recenter_ok_nonempty _ _ Ec) as Hne.
  rewrite (recenter_result acc Hne) in Ec. injection Ec as <-.
  destruct (update_velocities_keeps _ _ _ Ea) as [Hpm [Hlen [Mx [My Mz]]]].
  destruct (same_places _ _ Hpm) as [_ [_ [_ Hmass]]].
  destruct (translate_mean_zero acc Hne) as [Zx [Zy Zz]].
  split; [exact Et |]. split; [| split; [| split; [| split; [| split]]]].
  - unfold translate. rewrite length_map, Hlen. unfold advance_positions.
    apply length_map.
  - unfold translate. rewrite map_map. cbn [add_position mass].
    change (map (fun b => mass b) acc) with (map mass acc).
    rewrite Hmass. unfold advance_positions. rewrite map_map. reflexivity.
  - auto.
  - unfold momentum_x, momentum_y, momentum_z in *. unfold translate.
    rewrite !sum_over_map_same by (intros b; reflexivity).
    rewrite Mx, My, Mz. unfold advance_positions.
    rewrite !sum_over_map_same by (intros b; reflexivity). auto.
  - reflexivity.
  - reflexivity.
Qed.

(** X18.  Whenever one whole update (render, move, update the velocities,
    recentre, count) returns: the text is the map of the bodies as they
    were before the update; the bodies are as many and weigh the same;
    their centroid is the origin; the total momentum is what it was; the
    counter is one more, modulo 2^32; and the random source was not
    used. *)
Theorem update_invariants (height width : Z) (w w' : World)
    (text : list ascii) :
  update height width w = Ok (text, w') ->
  create_map_of_bodies height width (bodies w) = Ok text /\
  length (bodies w') = length (bodies w) /\
  map mass (bodies w') = map mass (bodies w) /\
  (mean_of x (bodies w') = 0 /\ mean_of y (bodies w') = 0 /\
   mean_of z (bodies w') = 0) /\
  (momentum_x (bodies w') = momentum_x (bodies w) /\
   momentum_y (bodies w') = momentum_y (bodies w) /\
   momentum_z (bodies w') = momentum_z (bodies w)) /\
  updateCount w' = ((updateCount w + 1) mod UINT_SIZE)%Z /\
  rand_calls w' = rand_calls w.
Proof. apply update_keeps. Qed.

(** ** Concrete runs for the further properties *)

Lemma DBL_MAX_gt_1 : 1 < DBL_MAX.
Proof.
  unfold DBL_MAX.
  pose proof (inv_pow2_le_1 52) as H52.
  assert (H1022 : 1 <= 2 ^ 1022) by (apply pow_R1_Rle; lra).
  change (2 ^ 1023) with (2 * 2 ^ 1022). nra.
Qed.

Lemma two_bodies_nonzero : forall b, In b two_bodies -> mass b <> 0.
Proof.
  intros b Hb. pose proof (two_bodies_positive b Hb). lra.
Defined.

Lemma two_bodies_updated :
  exists bodies1, update_velocities gravitational_constant two_bodies = Ok bodies1.
Proof.
  exact (update_velocities_returns gravitational_constant two_bodies
           two_bodies_nonzero two_bodies_distinct).
Defined.

(** The update of the two-body collection keeps places, masses and
    momentum. *)
Lemma velocity_update_frame_witness :
  exists bodies1,
    update_velocities gravitational_constant two_bodies = Ok bodies1 /\
    map place_and_mass bodies1 = map place_and_mass two_bodies /\
    momentum_x bodies1 = momentum_x two_bodies.
Proof.
  destruct two_bodies_updated as [bodies1 E]. exists bodies1.
  destruct (velocity_update_frame gravitational_constant two_bodies bodies1 E)
    as [Hp [_ [Mx _]]].
  auto.
Defined.

(** The two-body collection: its update returns, so its masses are not 0
    and its two bodies are apart. *)
Lemma velocity_update_returns_only_if_witness :
  exists bodies1,
    update_velocities gravitational_constant two_bodies = Ok bodies1 /\
    (forall b, In b two_bodies -> mass b <> 0) /\
    distinct_positions two_bodies.
Proof.
  destruct two_bodies_updated as [bodies1 E]. exists bodies1.
  split; [exact E |].
  apply (velocity_update_returns_only_if gravitational_constant two_bodies
           bodies1); [cbn [two_bodies length]; lia | exact E].
Defined.

(** The first of the two bodies after the update. *)
Lemma velocity_update_net_acceleration_witness :
  exists bodies1 p',
    update_velocities gravitational_constant two_bodies = Ok bodies1 /\
    nth_error bodies1 0 = Some p' /\
    forall a, velocity a p'
              = velocity a (resting_unit_body 0)
                + net_acceleration gravitational_constant a two_bodies 0
                    (resting_unit_body 0).
Proof.
  destruct two_bodies_updated as [bodies1 E].
  destruct (velocity_update_net_acceleration gravitational_constant
              two_bodies bodies1 E 0%nat (resting_unit_body 0) eq_refl)
    as [p' [Hp' [_ Hv]]].
  exists bodies1, p'. auto.
Defined.

Lemma two_bodies_nonempty : two_bodies <> [].
Proof. discriminate. Defined.


(** Recentring the two-body collection twice. *)
Lemma recenter_idempotent_witness :
  exists bodies1,
    recenter two_bodies = Ok bodies1 /\ recenter bodies1 = Ok bodies1.
Proof.
  destruct (recenter_idempotent two_bodies two_bodies_nonempty)
    as [bodies1 [E [_ [_ E']]]].
  exists bodies1. auto.
Defined.

(** The text of the corner bodies on two lines of two columns has six
    characters. *)
Lemma rendered_text_shape_witness :
  exists output,
    create_map_of_bodies 2 2 corner_bodies = Ok output /\
    length output = 6%nat.
Proof.
  destruct corner_bodies_rendered as [output E]. exists output.
  split; [exact E |].
  exact (proj1 (rendered_text_shape 2 2 corner_bodies output E)).
Defined.

Lemma flat_bodies_extent :
  lowest_x (bounds_of flat_bodies) = highest_x (bounds_of flat_bodies).
Proof.
  pose proof DBL_MIN_pos as Hmin. pose proof DBL_MIN_lt_1 as Hmin1.
  pose proof DBL_MAX_gt_1 as Hmax.
  rewrite bounds_of_spec. unfold flat_bodies.
  cbn [map fold_left x y z lowest_x highest_x]. run_comparisons. reflexivity.
Defined.

Lemma flat_bodies_nonempty : flat_bodies <> [].
Proof. discriminate. Defined.

(** Two bodies with the same abscissa cannot be drawn. *)
Lemma zero_extent_divides_by_zero_witness :
  create_map_of_bodies 24 80 flat_bodies = Fault DivByZero.
Proof.
  exact (zero_extent_divides_by_zero 24 80 flat_bodies flat_bodies_nonempty
           (or_introl flat_bodies_extent)).
Defined.

Lemma corner_bodies_nonempty : corner_bodies <> [].
Proof. discriminate. Defined.

Lemma zero_in_uint : (0 <= 0 < UINT_SIZE)%Z.
Proof. rewrite UINT_SIZE_eq. lia. Defined.

Lemma two_in_uint_from_zero : (0 <= 2 < UINT_SIZE)%Z.
Proof. rewrite UINT_SIZE_eq. lia. Defined.

(** The corner bodies on a terminal of height 0. *)
Lemma zero_size_out_of_bounds_witness :
  create_map_of_bodies 0 2 corner_bodies = Fault OutOfBounds.
Proof.
  destruct corner_bodies_extent as [Ex [Ey Ez]].
  exact (zero_size_out_of_bounds 0 2 corner_bodies corner_bodies_nonempty
           zero_in_uint two_in_uint_from_zero (or_introl eq_refl) Ex Ey Ez).
Defined.

(** The corner bodies, at rest or moving, give the same map. *)
Lemma render_reads_positions_only_witness :
  create_map_of_bodies 2 2 corner_bodies
  = create_map_of_bodies 2 2 moving_corner_bodies.
Proof.
  exact (render_reads_positions_only 2 2 corner_bodies moving_corner_bodies
           eq_refl).
Defined.

(** The two ends of the unit interval on two cells. *)
Lemma grid_index_keeps_order_witness :
  exists k1 k2,
    grid_index 0 0 1 2 = Ok k1 /\ grid_index 1 0 1 2 = Ok k2 /\ (k1 <= k2)%Z.
Proof.
  destruct (grid_index_keeps_order 0 1 0 1 2) as [k1 [k2 [E1 [E2 [H _]]]]];
    try lra; [exact two_in_uint |].
  exists k1, k2. repeat split; auto; lia.
Defined.

Lemma three_in_uint : (1 <= 3 < UINT_SIZE)%Z.
Proof. rewrite UINT_SIZE_eq. lia. Defined.

(** The middle of the unit interval on three cells is cell 1. *)
Lemma grid_index_midpoint_witness :
  grid_index ((0 + 1) / 2) 0 1 3 = Ok 1%Z.
Proof.
  refine (grid_index_midpoint 0 1 3 _ three_in_uint). lra.
Defined.

(** One whole update returns when the map can be drawn, no mass is 0, no
    two bodies meet after the move, and there is a body. *)
Lemma update_returns (height width : Z) (w : World) (text : list ascii) :
  create_map_of_bodies height width (bodies w) = Ok text ->
  (forall b, In b (bodies w) -> mass b <> 0) ->
  distinct_positions (advance_positions (bodies w)) ->
  bodies w <> [] ->
  exists w', update height width w = Ok (text, w').
Proof.
  intros Et Hm Hd Hne. unfold update, call_create_map_of_bodies.
  rewrite Et. cbn [bind].
  destruct (update_velocities_returns gravitational_constant
              (advance_positions (bodies w))) as [acc Ea]; [| exact Hd |].
  { intros b Hb. unfold advance_positions in Hb. apply in_map_iff in Hb.
    destruct Hb as [b0 [<- Hb0]]. cbn [add_position mass]. now apply Hm. }
  rewrite Ea. cbn [bind].
  assert (Hacc : acc <> []).
  { destruct (update_velocities_keeps _ _ _ Ea) as [_ [Hlen _]].
    intros ->. unfold advance_positions in Hlen. rewrite length_map in Hlen.
    destruct (bodies w); [contradiction | discriminate]. }
  rewrite (recenter_result acc Hacc). cbn [bind]. eexists. reflexivity.
Qed.

Lemma corner_bodies_nonzero : forall b, In b corner_bodies -> mass b <> 0.
Proof.
  intros b [<- | [<- | [<- | []]]]; cbn [mass]; lra.
Defined.

Lemma corner_bodies_move_apart :
  distinct_positions (advance_positions corner_bodies).
Proof.
  intros i j bi bj Hne Hi Hj [Hx [Hy Hz]].
  destruct i as [| [| [| i]]], j as [| [| [| j]]];
    try (now elim Hne);
    try (destruct i; discriminate Hi);
    try (destruct j; discriminate Hj);
    cbn in Hi, Hj; injection Hi as <-; injection Hj as <-;
    cbn [add_position x y z vx vy vz] in Hx, Hy, Hz; lra.
Defined.

(** One update of the corner bodies on two lines of two columns. *)
Lemma update_invariants_witness :
  exists text w',
    update 2 2 (mkWorld corner_bodies 0 0) = Ok (text, w') /\
    length (bodies w') = 3%nat /\
    mean_of x (bodies w') = 0 /\
    updateCount w' = 1%Z.
Proof.
  destruct corner_bodies_rendered as [text Et].
  destruct (update_returns 2 2 (mkWorld corner_bodies 0 0) text Et
              corner_bodies_nonzero corner_bodies_move_apart
              corner_bodies_nonempty) as [w' E].
  exists text, w'. split; [exact E |].
  destruct (update_invariants 2 2 (mkWorld corner_bodies 0 0) w' text E)
    as [_ [HL [_ [[Mx _] [_ [Hc _]]]]]].
  repeat split; assumption.
Defined.

(** ** A collection of one body *)

Lemma single_bounds (b : Body) :
  bounds_of [b] =
  mkBounds (raise DBL_MIN (x b)) (raise DBL_MIN (y b)) (raise DBL_MIN (z b))
           (lower DBL_MAX (x b)) (lower DBL_MAX (y b)) (lower DBL_MAX (z b)).
Proof. rewrite bounds_of_spec. reflexivity. Qed.

(** The two bounds meet at a coordinate that lies between the two values
    they start from. *)
Lemma single_extent_zero (v : R) :
  DBL_MIN <= v <= DBL_MAX -> lower DBL_MAX v = raise DBL_MIN v.
Proof.
  intros [H1 H2]. unfold lower, raise.
  destruct (Rlt_dec v DBL_MAX), (Rgt_dec v DBL_MIN); lra.
Qed.

Lemma single_extent_positive (v : R) :
  v < DBL_MIN -> lower DBL_MAX v = v /\ raise DBL_MIN v = DBL_MIN.
Proof.
  intros H. pose proof DBL_MIN_le_1. pose proof DBL_MAX_ge_1.
  split; [apply lower_lt; lra | apply raise_le; lra].
Qed.

Lemma single_body_fails (height width : Z) (b : Body) :
  x b <= DBL_MAX -> y b <= DBL_MAX -> z b <= DBL_MAX ->
  DBL_MIN <= x b \/ DBL_MIN <= y b \/ DBL_MIN <= z b ->
  create_map_of_bodies height width [b] = Fault DivByZero.
Proof.
  intros Fx Fy Fz Hge.
  unfold create_map_of_bodies, render_lines. cbn [foldM]. unfold plot at 1.
  rewrite (body_cell_zero_extent height width [b] b (or_introl eq_refl));
    [reflexivity |].
  rewrite single_bounds.
  cbn [lowest_x lowest_y lowest_z highest_x highest_y highest_z].
  destruct Hge as [H | [H | H]];
    [left | right; left | right; right]; apply single_extent_zero; lra.
Qed.

Lemma single_body_drawn (height width : Z) (b : Body) :
  (1 <= height < UINT_SIZE)%Z -> (1 <= width < UINT_SIZE)%Z ->
  x b < DBL_MIN -> y b < DBL_MIN -> z b < DBL_MIN ->
  exists output,
    create_map_of_bodies height width [b] = Ok output /\
    text_cell width output 0 0 = Some "."%char.
Proof.
  intros Hh Hw Lx Ly Lz.
  destruct (single_extent_positive _ Lx) as [Lox Hix].
  destruct (single_extent_positive _ Ly) as [Loy Hiy].
  destruct (single_extent_positive _ Lz) as [Loz Hiz].
  assert (Eb : bounds_of [b] =
               mkBounds DBL_MIN DBL_MIN DBL_MIN (x b) (y b) (z b))
    by (rewrite single_bounds, Lox, Loy, Loz, Hix, Hiy, Hiz; reflexivity).
  assert (Hz : (1 <= z_size < UINT_SIZE)%Z)
    by (rewrite z_size_eq, UINT_SIZE_eq; lia).
  assert (Ec : body_cell height width (bounds_of [b]) b = Ok (0, 0, 0)%Z).
  { rewrite Eb. unfold body_cell.
    cbn [lowest_x lowest_y lowest_z highest_x highest_y highest_z].
    rewrite !grid_index_lowest by assumption. reflexivity. }
  destruct (render_lines_total height width [b] Hh Hw) as [lines [El Hs]];
    try (rewrite Eb;
         cbn [lowest_x lowest_y lowest_z highest_x highest_y highest_z];
         assumption).
  exists (join_lines lines). split.
  - unfold create_map_of_bodies. now rewrite El.
  - unfold render_lines in El.
    destruct (plots_show_last height width (bounds_of [b]) [b] _ _ 0%nat b
                0%Z 0%Z 0%Z El eq_refl Ec) as [c [Hc Hcell]].
    { intros j later zj Hlt Hj. destruct j; [lia |]. destruct j; discriminate. }
    cbn in Hc. injection Hc as <-.
    unfold text_cell. apply join_lines_cell; [apply Hs | exact Hcell].
Qed.

(** X19.  A collection of one body, on a grid of at least one line and one
    column: when one of its coordinates is at least
    [numeric_limits<double>::min()] (and all are doubles) the bounds meet
    on that axis and the renderer divides by zero; when all three are below
    (the origin, where recentring puts a lone body, is such a point) the
    body is drawn, in the first column of the first line, with the first
    palette character. *)
Theorem single_body_map (height width : Z) (b : Body) :
  (1 <= height < UINT_SIZE)%Z -> (1 <= width < UINT_SIZE)%Z ->
  x b <= DBL_MAX -> y b <= DBL_MAX -> z b <= DBL_MAX ->
  (DBL_MIN <= x b \/ DBL_MIN <= y b \/ DBL_MIN <= z b ->
   create_map_of_bodies height width [b] = Fault DivByZero) /\
  (x b < DBL_MIN -> y b < DBL_MIN -> z b < DBL_MIN ->
   exists output,
     create_map_of_bodies height width [b] = Ok output /\
     text_cell width output 0 0 = Some "."%char).
Proof.
  intros Hh Hw Fx Fy Fz. split.
  - now apply single_body_fails.
  - now apply single_body_drawn.
Qed.

(** A lone body at the origin on two lines of two columns. *)
Lemma single_body_map_witness :
  exists output,
    create_map_of_bodies 2 2 [resting_unit_body 0] = Ok output /\
    text_cell 2 output 0 0 = Some "."%char.
Proof.
  pose proof DBL_MIN_pos as Hmin. pose proof DBL_MAX_ge_1 as Hmax.
  apply (single_body_map 2 2 (resting_unit_body 0) two_in_uint two_in_uint);
    cbn [resting_unit_body x y z]; lra.
Defined.
